(** * The faye-redis-ng storage engine, embedded in Rocq

    The development follows [Engine] (the class of the engine source file):
    client sessions in a Redis sorted set, the two subscription indices,
    per-client message queues, and the garbage-collection lock.

    - [JS]     : the JavaScript values the engine computes with;
    - [Redis]  : the commands the engine sends, with their effect on a store;
    - [Async]  : asynchronous engine methods as resumptions, and a scheduler
                 that interleaves them with the other users of the store;
    - [Engine] : the methods of the class, one definition per method;
    - [Spec]   : statements of the specification, written from its words;
    - the theorems. *)

From Stdlib Require Import ZArith Lia Ascii String Floats.
From Stdlib Require Import Decimal DecimalString DecimalPos DecimalZ.
From stdpp Require Import gmap strings list fin_maps sorting.

Set Warnings "-register-all,-clear-no-such-hyp,-inexact-float".
Open Scope Z_scope.

(** ** JavaScript values *)

Module JS.

(** A JavaScript number is an IEEE 754 binary64 value: the primitive
    floats of the kernel, with their operations ([*], [-], [<], [<=]
    round and compare as the double-precision hardware does). *)
Definition num : Type := PrimFloat.float.

Definition NaN : num := PrimFloat.nan.

(** The values [server.timeout] is given in the engine and its tests. *)
Inductive value :=
| Undefined
| Null
| Bool (b : bool)
| Num (n : num).

(** The number an integer denotes: the nearest binary64 value, which is
    the integer itself up to 2^53 in absolute value. *)
Definition of_Z (z : Z) : num :=
  SF2Prim (binary_normalize prec emax z 0 false).


(** The integers that binary64 holds exactly, one by one (the safe
    integers).  Time values, [Date.now()] among them, are at most
    8.64e15 in absolute value, and so are safe. *)
Definition safe (z : Z) : Prop := Z.abs z < 2 ^ 53.

(** The binary64 value of an integer, as the sign, the digits and the
    exponent of the format. *)
Definition SF (z : Z) : spec_float := binary_normalize prec emax z 0 false.

(** The digits and the exponent of a positive integer below 2^53: the
    integer itself, moved up to fill the 53 bits. *)
Definition normal (p : positive) : positive * Z :=
  match 53 - Zpos (Pos.size p) with
  | Zpos k => (Pos.iter xO p k, - Zpos k)
  | _ => (p, 0)
  end.

(** [typeof v === 'number'] *)
Definition typeof_number (v : value) : bool :=
  match v with Num _ => true | _ => false end.

(** ToNumber, applied by [*] and [-] to their operands. *)
Definition ToNumber (v : value) : num :=
  match v with
  | Undefined => NaN
  | Null => of_Z 0
  | Bool b => of_Z (if b then 1 else 0)
  | Num n => n
  end.

Definition mul (a b : num) : num := PrimFloat.mul a b.

Definition sub (a b : num) : num := PrimFloat.sub a b.

(** [a < b]; every comparison with NaN is false. *)
Definition lt (a b : num) : bool := PrimFloat.ltb a b.

(** [a > b] *)
Definition gt (a b : num) : bool := lt b a.

(** [a <= b] *)
Definition le (a b : num) : bool := PrimFloat.leb a b.

(** [Number.prototype.toString] on a safe integer: its decimal digits.
    (Beyond the safe integers JavaScript prints the shortest digits that
    read back as the same double, and an exponent from 10^21 on; the
    statements below keep to safe integers.) *)
Definition toString (z : Z) : string :=
  NilZero.string_of_int (Z.to_int z).

Definition is_space (a : ascii) : bool :=
  let n := nat_of_ascii a in
  ((n =? 32) || ((9 <=? n) && (n <=? 13)))%nat.

Fixpoint skip_space (s : string) : string :=
  match s with
  | String a r => if is_space a then skip_space r else s
  | EmptyString => s
  end.

Definition digit_of (a : ascii) : option (uint -> uint) :=
  match a with
  | "0" => Some D0 | "1" => Some D1 | "2" => Some D2 | "3" => Some D3
  | "4" => Some D4 | "5" => Some D5 | "6" => Some D6 | "7" => Some D7
  | "8" => Some D8 | "9" => Some D9 | _ => None
  end%char.

(** The longest prefix of decimal digits. *)
Fixpoint digits (s : string) : uint :=
  match s with
  | String a r =>
      match digit_of a with
      | Some d => d (digits r)
      | None => Nil
      end
  | EmptyString => Nil
  end.

Definition magnitude (s : string) (sign : Z) : option Z :=
  match digits s with
  | Nil => None
  | d => Some (sign * Z.of_uint d)
  end.

(** The integer [parseInt(s, 10)] reads: leading white space, an optional
    sign, then the longest run of digits; none when there is no digit. *)
Definition integer (s : string) : option Z :=
  match skip_space s with
  | String "-"%char r => magnitude r (-1)
  | String "+"%char r => magnitude r 1
  | r => magnitude r 1
  end.

(** [parseInt(s, 10)]: the number that integer denotes, NaN when there is
    none. *)
Definition parseInt (s : string) : num :=
  match integer s with
  | Some z => of_Z z
  | None => NaN
  end.

End JS.

(** JSON payloads: what [JSON.stringify] accepts and [JSON.parse] returns.
    Numbers are integers here. *)
Inductive json :=
| JNull
| JBool (b : bool)
| JNumber (n : Z)
| JString (s : string)
| JArray (items : list json)
| JObject (fields : list (string * json)).

(** The runtime's [JSON] object.  [parse] is [None] where [JSON.parse]
    throws. *)
Record JSON_t := {
  stringify : json -> string;
  parse : string -> option json
}.

(** ** The Redis commands of the engine *)

Module Redis.

(** What a key holds. *)
Inductive entry :=
| ZSet (members : gmap string Z)
| SSet (members : gset string)
| LList (items : list string)
| Str (s : string).

(** The key space, the messages published so far on the pub/sub
    channels (channel, payload), oldest first, and the number of
    connections subscribed to each channel (every engine process
    subscribes to its two notification channels). *)
Record store := {
  db : gmap string entry;
  pubsub : list (string * string);
  listeners : gmap string nat
}.

Inductive command :=
| ZADD (key : string) (NX : bool) (score : Z) (member : string)
| ZSCORE (key member : string)
| ZREM (key member : string)
| ZRANGEBYSCORE (key : string) (min max : JS.num)
| SADD (key member : string)
| SREM (key member : string)
| SMEMBERS (key : string)
| SUNION (keys : list string)
| RPUSH (key element : string)
| LRANGE (key : string) (start stop : Z)
| DEL (key : string)
| PUBLISH (channel message : string)
| SETNX (key value : string)
| GET (key : string)
| SET_GET (key value : string).

(** One round trip: a command, or a MULTI ... EXEC batch. *)
Inductive request :=
| Single (c : command)
| MultiExec (cs : list command).

(** Replies as the client library hands them to JavaScript. *)
Inductive reply :=
| Nil
| Int (z : Z)
| Flag (b : bool)
| Bulk (s : string)
| Array (items : list string)
| Error (msg : string)
| Results (rs : list reply).

Definition WRONGTYPE : reply :=
  Error "WRONGTYPE Operation against a key holding the wrong kind of value".

Definition with_db (s : store) (d : gmap string entry) : store :=
  {| db := d; pubsub := pubsub s; listeners := listeners s |}.

(** Typed reads: [None] is a key of another type, a missing key reads as
    the empty container. *)
Definition as_zset (e : option entry) : option (gmap string Z) :=
  match e with
  | None => Some ∅
  | Some (ZSet m) => Some m
  | Some _ => None
  end.

Definition as_set (e : option entry) : option (gset string) :=
  match e with
  | None => Some ∅
  | Some (SSet m) => Some m
  | Some _ => None
  end.

Definition as_list (e : option entry) : option (list string) :=
  match e with
  | None => Some []
  | Some (LList l) => Some l
  | Some _ => None
  end.

(** Redis drops a key whose container became empty. *)
Definition put_zset (key : string) (m : gmap string Z)
    (d : gmap string entry) : gmap string entry :=
  if decide (m = ∅) then delete key d else <[key := ZSet m]> d.

Definition put_set (key : string) (m : gset string)
    (d : gmap string entry) : gmap string entry :=
  if decide (m = ∅) then delete key d else <[key := SSet m]> d.

(** Sorted-set order: by score, ties by member. *)
Definition zorder (x y : string * Z) : Prop :=
  x.2 < y.2 ∨ (x.2 = y.2 ∧ String.leb x.1 y.1 = true).

#[global] Instance zorder_dec x y : Decision (zorder x y).
Proof. unfold zorder. apply _. Defined.

Definition in_range (min max : JS.num) (x : string * Z) : bool :=
  JS.le min (JS.of_Z x.2) && JS.le (JS.of_Z x.2) max.

Definition zrangebyscore (m : gmap string Z) (min max : JS.num)
    : list string :=
  (merge_sort zorder (filter (λ x, in_range min max x = true)
                             (map_to_list m))).*1.

Definition is_NaN (n : JS.num) : bool := PrimFloat.is_nan n.

Fixpoint union_all (sets : list (option (gset string)))
    : option (gset string) :=
  match sets with
  | [] => Some ∅
  | Some x :: rest => (λ y, x ∪ y) <$> union_all rest
  | None :: _ => None
  end.

(** [LRANGE]: indices count from the end when negative; both ends are
    included. *)
Definition lrange (l : list string) (start stop : Z) : list string :=
  let len := Z.of_nat (length l) in
  let a := if start <? 0 then Z.max 0 (len + start) else start in
  let b := if stop <? 0 then len + stop else Z.min stop (len - 1) in
  if b <? a then [] else take (Z.to_nat (b - a + 1)) (drop (Z.to_nat a) l).

Definition exec_command (c : command) (s : store) : store * reply :=
  match c with
  | ZADD key NX score member =>
      match as_zset (db s !! key) with
      | None => (s, WRONGTYPE)
      | Some m =>
          match m !! member with
          | Some _ =>
              if NX then (s, Int 0)
              else (with_db s (<[key := ZSet (<[member := score]> m)]> (db s)),
                    Int 0)
          | None =>
              (with_db s (<[key := ZSet (<[member := score]> m)]> (db s)),
               Int 1)
          end
      end
  | ZSCORE key member =>
      match as_zset (db s !! key) with
      | None => (s, WRONGTYPE)
      | Some m =>
          match m !! member with
          | Some score => (s, Int score)
          | None => (s, Nil)
          end
      end
  | ZREM key member =>
      match as_zset (db s !! key) with
      | None => (s, WRONGTYPE)
      | Some m =>
          match m !! member with
          | Some _ => (with_db s (put_zset key (delete member m) (db s)), Int 1)
          | None => (s, Int 0)
          end
      end
  | ZRANGEBYSCORE key min max =>
      if is_NaN min || is_NaN max
      then (s, Error "ERR min or max is not a float")
      else
        match as_zset (db s !! key) with
        | None => (s, WRONGTYPE)
        | Some m => (s, Array (zrangebyscore m min max))
        end
  | SADD key member =>
      match as_set (db s !! key) with
      | None => (s, WRONGTYPE)
      | Some m =>
          if decide (member ∈ m) then (s, Int 0)
          else (with_db s (<[key := SSet ({[member]} ∪ m)]> (db s)), Int 1)
      end
  | SREM key member =>
      match as_set (db s !! key) with
      | None => (s, WRONGTYPE)
      | Some m =>
          if decide (member ∈ m)
          then (with_db s (put_set key (m ∖ {[member]}) (db s)), Int 1)
          else (s, Int 0)
      end
  | SMEMBERS key =>
      match as_set (db s !! key) with
      | None => (s, WRONGTYPE)
      | Some m => (s, Array (elements m))
      end
  | SUNION keys =>
      match keys with
      | [] => (s, Error "ERR wrong number of arguments for 'sunion' command")
      | _ =>
          match union_all (map (λ key, as_set (db s !! key)) keys) with
          | None => (s, WRONGTYPE)
          | Some m => (s, Array (elements m))
          end
      end
  | RPUSH key element =>
      match as_list (db s !! key) with
      | None => (s, WRONGTYPE)
      | Some l =>
          (with_db s (<[key := LList (l ++ [element])]> (db s)),
           Int (Z.of_nat (length l) + 1))
      end
  | LRANGE key start stop =>
      match as_list (db s !! key) with
      | None => (s, WRONGTYPE)
      | Some l => (s, Array (lrange l start stop))
      end
  | DEL key =>
      match db s !! key with
      | Some _ => (with_db s (delete key (db s)), Int 1)
      | None => (s, Int 0)
      end
  | PUBLISH channel message =>
      ({| db := db s; pubsub := pubsub s ++ [(channel, message)];
          listeners := listeners s |},
       Int (Z.of_nat (default 0%nat (listeners s !! channel))))
  | SETNX key value =>
      match db s !! key with
      | Some _ => (s, Flag false)
      | None => (with_db s (<[key := Str value]> (db s)), Flag true)
      end
  | GET key =>
      match db s !! key with
      | None => (s, Nil)
      | Some (Str v) => (s, Bulk v)
      | Some _ => (s, WRONGTYPE)
      end
  | SET_GET key value =>
      match db s !! key with
      | None => (with_db s (<[key := Str value]> (db s)), Nil)
      | Some (Str v) => (with_db s (<[key := Str value]> (db s)), Bulk v)
      | Some _ => (s, WRONGTYPE)
      end
  end.

(** EXEC runs the queued commands in order, with nothing in between. *)
Fixpoint exec_multi (cs : list command) (s : store)
    : store * list reply :=
  match cs with
  | [] => (s, [])
  | c :: rest =>
      let '(s1, r) := exec_command c s in
      let '(s2, rs) := exec_multi rest s1 in
      (s2, r :: rs)
  end.

Definition is_error (r : reply) : bool :=
  match r with Error _ => true | _ => false end.

(** What the client hands back for a request.  [multi.exec()] is rejected
    when one of the queued commands failed (the client's MultiErrorReply),
    after all of them have run. *)
Definition exec (rq : request) (s : store) : store * reply :=
  match rq with
  | Single c => exec_command c s
  | MultiExec cs =>
      let '(s', rs) := exec_multi cs s in
      (s', if existsb is_error rs then Error "MultiErrorReply"
           else Results rs)
  end.

(** JavaScript's view of a reply. *)

(** ToBoolean *)
Definition truthy (r : reply) : bool :=
  match r with
  | Nil => false
  | Int z => negb (z =? 0)
  | Flag b => b
  | Bulk s => negb (String.eqb s "")
  | _ => true
  end.

(** [r === n] for a number [n] *)
Definition is_int (r : reply) (n : Z) : bool :=
  match r with Int z => z =? n | _ => false end.

(** [a === b]; two arrays or objects are never the same object. *)
Definition strict_eq (a b : reply) : bool :=
  match a, b with
  | Nil, Nil => true
  | Int x, Int y => x =? y
  | Flag x, Flag y => Bool.eqb x y
  | Bulk x, Bulk y => String.eqb x y
  | _, _ => false
  end.

(** [parseInt(r, 10)]: the argument is first turned into a string. *)
Definition parseInt (r : reply) : JS.num :=
  match r with
  | Int z => JS.parseInt (JS.toString z)
  | Bulk s => JS.parseInt s
  | _ => JS.NaN
  end.

(** The strings of an array reply. *)
Definition strings (r : reply) : list string :=
  match r with Array l => l | _ => [] end.

End Redis.

(** ** Asynchronous methods *)

Module Async.

(** What a process leaves behind for its surroundings to see: calls into
    the bus server, console output, and the storage traffic.  An argument
    is [None] where JavaScript passes [undefined]. *)
Inductive event :=
| Debug (format : string) (args : list (option json))
| Trigger (name : string) (args : list (option json))
| Deliver (clientId : string) (messages : list json)
| ConsoleError (message : string)
| Called (name : string) (args : list (option json))
| UnhandledRejection
| OutOfFuel
| Sent (rq : Redis.request) (answer : option Redis.reply).

(** An engine method from one [await] to the next.

    [Await rq k h] sends [rq] and suspends; the method resumes with [k] on
    the reply, or with [h], the [catch] handler in force, when the request
    is rejected.  Everything else runs at once, without giving up control:
    reading the clock, calling the server, starting another asynchronous
    call ([Spawn], which is not awaited), and the mutable local of a
    closure ([NewCell], [Incr]). *)
Inductive prog :=
| Done
| Await (rq : Redis.request) (k : Redis.reply -> prog) (h : prog)
| Now (k : Z -> prog)
| Emit (e : event) (k : prog)
| GenerateId (k : string -> prog)
| Spawn (task : prog) (k : prog)
| NewCell (k : nat -> prog)
| Incr (cell : nat) (k : nat -> prog).

(** The shared world: the store and the wall clock (milliseconds). *)
Record world := {
  redis : Redis.store;
  clock : Z
}.

(** One engine process: closure cells, the number of identifiers drawn
    from the generator, the suspended asynchronous calls, and the log. *)
Record proc := {
  heap : list nat;
  ids : nat;
  tasks : list prog;
  log : list event
}.

(** What surrounds one round trip to the store: the other processes and
    the passing of time change the world before the request is served,
    and the request may fail. *)
Record tick := {
  interfere : world -> world;
  fault : bool
}.

(** A quiet tick: nobody else acts, no time passes, the request succeeds. *)
Definition quiet : tick := {| interfere := λ w, w; fault := false |}.

Definition record (e : event) (p : proc) : proc :=
  {| heap := heap p; ids := ids p; tasks := tasks p; log := log p ++ [e] |}.

Definition record_all (l : list event) (p : proc) : proc :=
  {| heap := heap p; ids := ids p; tasks := tasks p; log := log p ++ l |}.

Definition suspend (t : prog) (p : proc) : proc :=
  match t with
  | Done => p
  | _ => {| heap := heap p; ids := ids p; tasks := tasks p ++ [t];
            log := log p |}
  end.

Section Semantics.

(** [server.generateId], as the sequence of identifiers it returns. *)
Variable generateId : nat -> string.

(** Runs [t] up to its next [await] (or its end) at time [now]; returns the
    process and what is left of [t]. *)
Fixpoint sync (t : prog) (now : Z) (p : proc) : proc * prog :=
  match t with
  | Done => (p, Done)
  | Await _ _ _ => (p, t)
  | Now k => sync (k now) now p
  | Emit e k => sync k now (record e p)
  | GenerateId k =>
      sync (k (generateId (ids p))) now
           {| heap := heap p; ids := S (ids p); tasks := tasks p;
              log := log p |}
  | Spawn task k =>
      let '(p1, rest) := sync task now p in
      sync k now (suspend rest p1)
  | NewCell k =>
      sync (k (length (heap p))) now
           {| heap := heap p ++ [0%nat]; ids := ids p; tasks := tasks p;
              log := log p |}
  | Incr cell k =>
      let v := S (default 0%nat (heap p !! cell)) in
      sync (k v) now
           {| heap := <[cell := v]> (heap p); ids := ids p; tasks := tasks p;
              log := log p |}
  end.

(** A call of a method from outside (the bus server, a timer). *)
Definition call (t : prog) (c : world * proc) : world * proc :=
  let '(p, rest) := sync t (clock c.1) c.2 in
  (c.1, suspend rest p).

(** Task [i] gets the answer to its pending request and runs on to its
    next [await]. *)
Definition step (i : nat) (t : tick) (c : world * proc) : world * proc :=
  let w := interfere t c.1 in
  match tasks c.2 !! i with
  | Some (Await rq k h) =>
      let '(s, answer) :=
        if fault t then (redis w, None)
        else let '(s, r) := Redis.exec rq (redis w) in (s, Some r) in
      let next :=
        match answer with
        | Some r => if Redis.is_error r then h else k r
        | None => h
        end in
      let p := {| heap := heap c.2; ids := ids c.2;
                  tasks := delete i (tasks c.2);
                  log := log c.2 ++ [Sent rq answer] |} in
      let '(p', rest) := sync next (clock w) p in
      ({| redis := s; clock := clock w |}, suspend rest p')
  | _ => (w, c.2)
  end.

(** A schedule names, round trip after round trip, the task that is
    served and what surrounds it. *)
Fixpoint run (schedule : list (nat * tick)) (c : world * proc)
    : world * proc :=
  match schedule with
  | [] => c
  | (i, t) :: rest => run rest (step i t c)
  end.

(** A method that awaits one request after another: call it, then serve
    its round trips in turn.  The tasks already suspended stay so. *)
Definition serve (t : prog) (ticks : list tick) (c : world * proc)
    : world * proc :=
  run (map (λ t, (length (tasks c.2), t)) ticks) (call t c).

End Semantics.

(** A process that has not done anything yet. *)
Definition idle : proc := {| heap := []; ids := 0; tasks := []; log := [] |}.

(** The notifications in a log: the [server.trigger] calls by name. *)
Definition triggered (name : string) (l : list event)
    : list (list (option json)) :=
  omap (λ e, match e with
             | Trigger n args => if String.eqb n name then Some args else None
             | _ => None
             end) l.

End Async.

(** ** The engine *)

(** The bus server as the engine sees it (the [FayeServer] interface). *)
Record FayeServer := {
  timeout : JS.value;
  generateId : nat -> string;
  hasConnection : string -> bool
}.

Module Engine.
Import Redis Async.

Definition LOCK_TIMEOUT : Z := 120.

Definition str (s : string) : option json := Some (JString s).

(** [message.name] on a message object. *)
Fixpoint property (name : string) (fields : list (string * json))
    : option json :=
  match fields with
  | [] => None
  | (n, v) :: rest => if String.eqb n name then Some v else property name rest
  end.

(** [if (callback) callback.call(context)] *)
Definition invoke (callback : option prog) : prog :=
  match callback with
  | Some k => k
  | None => Done
  end.

Section Methods.

Variable _server : FayeServer.
Variable _ns : string.
Variable JSON : JSON_t.

Definition _messageChannel : string := _ns +:+ "/notifications/messages".
Definition _closeChannel : string := _ns +:+ "/notifications/close".

(** The methods below are the engine once its connections are ready:
    [_waitForInit] resolves at once. *)

Definition ping (clientId : string) : prog :=
  let timeout := timeout _server in
  if negb (JS.typeof_number timeout) then Done
  else
    Now (λ time,
      Emit (Debug "Ping ?, ?" [str clientId; Some (JNumber time)])
        (Await (Single (ZADD (_ns +:+ "/clients") false time clientId))
               (λ _, Done)
               (Emit (ConsoleError "Error pinging client:") Done))).

(** [fuel] bounds the attempts the model follows; the source retries
    without a bound. *)
Fixpoint createClient (fuel : nat) (callback : string -> prog) : prog :=
  match fuel with
  | O => Emit OutOfFuel Done
  | S fuel =>
      GenerateId (λ clientId,
        Await (Single (ZADD (_ns +:+ "/clients") true 0 clientId))
              (λ added,
                 if is_int added 0 then createClient fuel callback
                 else
                   Emit (Debug "Created new client ?" [str clientId])
                     (Spawn (ping clientId)
                        (Emit (Trigger "handshake" [str clientId])
                           (callback clientId))))
              (Emit (ConsoleError "Error creating client:") Done))
  end.

Definition clientExists (clientId : string) (callback : bool -> prog)
    : prog :=
  Now (λ now,
    let cutoff :=
      JS.sub (JS.of_Z now)
             (JS.mul (JS.mul (JS.of_Z 1000) 1.6%float)
                     (JS.ToNumber (timeout _server))) in
    Await (Single (ZSCORE (_ns +:+ "/clients") clientId))
          (λ score,
             callback (if truthy score
                       then JS.gt (parseInt score) cutoff
                       else false))
          (Emit (ConsoleError "Error checking client existence:")
             (callback false))).

(** [channels.forEach((channel, i) => ...)] of [destroyClient] *)
Fixpoint unsubscribed (clientId : string) (channels : list string)
    (i : nat) (results : list reply) (k : prog) : prog :=
  match channels with
  | [] => k
  | channel :: rest =>
      let next := unsubscribed clientId rest (S i) results k in
      match results !! (2 * i + 1)%nat with
      | Some r =>
          if is_int r 1
          then Emit (Trigger "unsubscribe" [str clientId; str channel])
                 (Emit (Debug "Unsubscribed client ? from channel ?"
                          [str clientId; str channel])
                    next)
          else next
      | None => next
      end
  end.

(** The batch [destroyClient] queues on [multi]. *)
Definition destroy_batch (clientId : string) (channels : list string)
    : list command :=
  [ZADD (_ns +:+ "/clients") false 0 clientId]
  ++ flat_map (λ channel,
       [SREM (_ns +:+ "/clients/" +:+ clientId +:+ "/channels") channel;
        SREM (_ns +:+ "/channels" +:+ channel) clientId]) channels
  ++ [DEL (_ns +:+ "/clients/" +:+ clientId +:+ "/messages");
      ZREM (_ns +:+ "/clients") clientId;
      PUBLISH _closeChannel clientId].

(** [destroyClient] once it knows the channels of the client. *)
Definition destroy_commit (clientId : string) (callback : option prog)
    (members : reply) : prog :=
  let handler :=
    Emit (ConsoleError "Error destroying client:") (invoke callback) in
  let channels := strings members in
  Await (MultiExec (destroy_batch clientId channels))
        (λ reply,
           let results :=
             match reply with Results rs => rs | _ => [] end in
           unsubscribed clientId channels 0 results
             (Emit (Debug "Destroyed client ?" [str clientId])
                (Emit (Trigger "disconnect" [str clientId])
                   (invoke callback))))
        handler.

Definition destroyClient (clientId : string) (callback : option prog)
    : prog :=
  let handler :=
    Emit (ConsoleError "Error destroying client:") (invoke callback) in
  Await (Single (SMEMBERS (_ns +:+ "/clients/" +:+ clientId +:+ "/channels")))
        (destroy_commit clientId callback)
        handler.

Definition subscribe (clientId channel : string) (callback : option prog)
    : prog :=
  let handler := Emit (ConsoleError "Error subscribing:") (invoke callback) in
  Await (Single (SADD (_ns +:+ "/clients/" +:+ clientId +:+ "/channels")
                      channel))
        (λ added,
           let rest :=
             Await (Single (SADD (_ns +:+ "/channels" +:+ channel) clientId))
                   (λ _,
                      Emit (Debug "Subscribed client ? to channel ?"
                              [str clientId; str channel])
                        (invoke callback))
                   handler in
           if is_int added 1
           then Emit (Trigger "subscribe" [str clientId; str channel]) rest
           else rest)
        handler.

Definition unsubscribe (clientId channel : string) (callback : option prog)
    : prog :=
  let handler :=
    Emit (ConsoleError "Error unsubscribing:") (invoke callback) in
  Await (Single (SREM (_ns +:+ "/clients/" +:+ clientId +:+ "/channels")
                      channel))
        (λ removed,
           let rest :=
             Await (Single (SREM (_ns +:+ "/channels" +:+ channel) clientId))
                   (λ _,
                      Emit (Debug "Unsubscribed client ? from channel ?"
                              [str clientId; str channel])
                        (invoke callback))
                   handler in
           if is_int removed 1
           then Emit (Trigger "unsubscribe" [str clientId; str channel]) rest
           else rest)
        handler.

(** [for (const clientId of clients) { ... }] of [publish] *)
Fixpoint publish_each (message : list (string * json))
    (jsonMessage : string) (clients : list string) (k handler : prog)
    : prog :=
  match clients with
  | [] => k
  | clientId :: rest =>
      let queue := _ns +:+ "/clients/" +:+ clientId +:+ "/messages" in
      let next := publish_each message jsonMessage rest k handler in
      Emit (Debug "Queueing for client ?: ?"
              [str clientId; Some (JObject message)])
        (Await (Single (RPUSH queue jsonMessage))
           (λ _,
              Await (Single (PUBLISH _messageChannel clientId))
                (λ _,
                   clientExists clientId (λ exists_,
                     if negb exists_
                     then Await (Single (DEL queue)) (λ _, next) handler
                     else next))
                handler)
           handler)
  end.

Definition publish (message : list (string * json))
    (channels : list string) : prog :=
  let handler := Emit (ConsoleError "Error publishing:") Done in
  Emit (Debug "Publishing message ?" [Some (JObject message)])
    (let jsonMessage := stringify JSON (JObject message) in
     let keys := map (λ c, _ns +:+ "/channels" +:+ c) channels in
     Await (Single (SUNION keys))
       (λ clients,
          publish_each message jsonMessage (strings clients)
            (Emit (Trigger "publish"
                     [property "clientId" message;
                      property "channel" message;
                      property "data" message])
               Done)
            handler)
       handler).

(** [jsonMessages.map(json => JSON.parse(json))]: [None] when a parse
    throws. *)
Definition parse_all (jsonMessages : list string) : option (list json) :=
  mapM (parse JSON) jsonMessages.

Definition emptyQueue (clientId : string) : prog :=
  if negb (hasConnection _server clientId) then Done
  else
    let handler := Emit (ConsoleError "Error emptying queue:") Done in
    let key := _ns +:+ "/clients/" +:+ clientId +:+ "/messages" in
    Await (MultiExec [LRANGE key 0 (-1); DEL key])
      (λ reply,
         match reply with
         | Results (Array jsonMessages :: _) =>
             if (0 <? length jsonMessages)%nat
             then
               match parse_all jsonMessages with
               | Some messages => Emit (Deliver clientId messages) Done
               | None => handler
               end
             else Done
         | _ => Done
         end)
      handler.

(** The [releaseLock] closure of [_withLock]; nobody awaits it. *)
Definition releaseLock (lockKey : string) (expiry : Z) : prog :=
  Now (λ now,
    if now <? expiry
    then Await (Single (DEL lockKey)) (λ _, Done) (Emit UnhandledRejection Done)
    else Done).

(** [callback] gets [releaseLock] and the handler of its own rejection:
    the [catch] of [_withLock] where its promise is returned, none where
    it is dropped. *)
Definition _withLock (lockName : string) (callback : prog -> prog -> prog)
    : prog :=
  let handler := Emit (ConsoleError "Error with lock:") Done in
  let lockKey := _ns +:+ "/locks/" +:+ lockName in
  Now (λ currentTime,
    let expiry := currentTime + LOCK_TIMEOUT * 1000 + 1 in
    Await (Single (SETNX lockKey (JS.toString expiry)))
      (λ set,
         if truthy set then callback (releaseLock lockKey expiry) handler
         else
           Await (Single (GET lockKey))
             (λ timeout,
                if negb (truthy timeout) then Done
                else
                  let lockTimeout := parseInt timeout in
                  if JS.lt (JS.of_Z currentTime) lockTimeout then Done
                  else
                    Await (Single (SET_GET lockKey (JS.toString expiry)))
                      (λ oldValue,
                         if strict_eq oldValue timeout
                         then callback (releaseLock lockKey expiry)
                                (Emit UnhandledRejection Done)
                         else Done)
                      handler)
             handler)
      handler).

(** [for (const clientId of clients) this.destroyClient(clientId, ...)] *)
Fixpoint destroy_each (clients : list string) (callback : prog) : prog :=
  match clients with
  | [] => Done
  | clientId :: rest =>
      Spawn (destroyClient clientId (Some callback))
            (destroy_each rest callback)
  end.

(** The callback [gc] runs under the lock. *)
Definition sweep (timeout : JS.num) (releaseLock handler : prog) : prog :=
  Now (λ now,
    let cutoff :=
      JS.sub (JS.of_Z now)
             (JS.mul (JS.mul (JS.of_Z 1000) 2%float) timeout) in
    Await (Single (ZRANGEBYSCORE (_ns +:+ "/clients") (JS.of_Z 0) cutoff))
      (λ reply,
         let clients := strings reply in
         if (length clients =? 0)%nat then releaseLock
         else
           NewCell (λ completed,
             destroy_each clients
               (Incr completed (λ n,
                  if (n =? length clients)%nat then releaseLock else Done))))
      handler).

Definition gc : prog :=
  match timeout _server with
  | JS.Num timeout => _withLock "gc" (sweep timeout)
  | _ => Done
  end.

End Methods.
End Engine.

(** ** Vocabulary of the statements *)

Module Spec.
Import Redis Async.

(** [now - 1000 * factor * timeout], the instant before which a session
    counts as stale ([factor] is 1.6 for the existence check and 2 for the
    sweep). *)
Definition cutoff (factor : JS.num) (now : Z) (timeout : JS.num) : JS.num :=
  JS.sub (JS.of_Z now) (JS.mul (JS.mul (JS.of_Z 1000) factor) timeout).

(** The score of a member of the session set, when it has one. *)
Definition score (s : store) (ns clientId : string) : option Z :=
  match db s !! (ns +:+ "/clients") with
  | Some (ZSet m) => m !! clientId
  | _ => None
  end.

(** The channels of a client (forward index) and the clients of a channel
    (reverse index). *)
Definition channels_of (s : store) (ns clientId : string) : gset string :=
  match db s !! (ns +:+ "/clients/" +:+ clientId +:+ "/channels") with
  | Some (SSet m) => m
  | _ => ∅
  end.

Definition clients_of (s : store) (ns channel : string) : gset string :=
  match db s !! (ns +:+ "/channels" +:+ channel) with
  | Some (SSet m) => m
  | _ => ∅
  end.

(** The pending messages of a client. *)
Definition queue_of (s : store) (ns clientId : string) : list string :=
  match db s !! (ns +:+ "/clients/" +:+ clientId +:+ "/messages") with
  | Some (LList l) => l
  | _ => []
  end.

(** The existence check on a store at time [now], as a function. *)
Definition live (s : store) (ns : string) (now : Z) (timeout : JS.value)
    (clientId : string) : bool :=
  match score s ns clientId with
  | Some sc =>
      negb (sc =? 0)
      && JS.gt (JS.of_Z sc) (cutoff 1.6%float now (JS.ToNumber timeout))
  | None => false
  end.

(** The clients subscribed to any of the channels. *)
Definition subscribers (s : store) (ns : string) (channels : list string)
    : gset string :=
  ⋃ (map (clients_of s ns) channels).

(** The requests [publish] sends for one subscriber: enqueue, notify,
    check, and drop the queue of a client that does not exist. *)
Definition fanout (ns jsonMessage : string) (exists_ : string -> bool)
    (clientId : string) : list request :=
  let queue := ns +:+ "/clients/" +:+ clientId +:+ "/messages" in
  [Single (RPUSH queue jsonMessage);
   Single (PUBLISH (ns +:+ "/notifications/messages") clientId);
   Single (ZSCORE (ns +:+ "/clients") clientId)]
  ++ (if exists_ clientId then [] else [Single (DEL queue)]).

(** No queue key holds anything but a list. *)
Definition queues_ok (s : store) (ns : string) : Prop :=
  ∀ clientId,
    is_Some (as_list
               (db s !! (ns +:+ "/clients/" +:+ clientId +:+ "/messages"))).

(** A [releaseLock] that only records that it was called. *)
Definition release : prog := Emit (Called "release" []) Done.

(** The completion callback [gc] gives to every [destroyClient]:
    [completed++], and the release when the count reaches [n]. *)
Definition completion (cell n : nat) (release : prog) : prog :=
  Incr cell (λ v, if (v =? n)%nat then release else Done).

(** The two suspended states of a [destroyClient] with callback
    [callback], for a client among [P]. *)
Inductive destroying (ns : string) (callback : prog) (P : string -> Prop)
    : prog -> Prop :=
| destroying_read clientId :
    P clientId ->
    destroying ns callback P (Engine.destroyClient ns clientId (Some callback))
| destroying_commit clientId members :
    P clientId ->
    destroying ns callback P
      (Engine.destroy_commit ns clientId (Some callback) members).

(** Everything the store holds about a client is the same in [s'] as in
    [s]: score, channels, queue, and the channels that list it. *)
Record same_client (ns clientId : string) (s s' : store) : Prop := {
  same_score : score s' ns clientId = score s ns clientId;
  same_channels : channels_of s' ns clientId = channels_of s ns clientId;
  same_queue : queue_of s' ns clientId = queue_of s ns clientId;
  same_listing :
    ∀ channel,
      clientId ∈ clients_of s' ns channel ↔ clientId ∈ clients_of s ns channel
}.

(** Nothing but the keys [keys] differs between [s] and [s']. *)
Definition untouched (keys : list string) (s s' : store) : Prop :=
  (∀ k, k ∉ keys → db s' !! k = db s !! k)
  ∧ pubsub s' = pubsub s
  ∧ listeners s' = listeners s.

(** Every score of the session set is a safe integer, as the time values
    the engine writes are. *)
Definition safe_scores (s : store) (ns : string) : Prop :=
  ∀ clientId sc, score s ns clientId = Some sc → JS.safe sc.

(** The value of a lock record. *)
Definition lock_of (s : store) (ns name : string) : option entry :=
  db s !! (ns +:+ "/locks/" +:+ name).

(** The two index keys of a pair hold sets, or nothing. *)
Definition indexable (s : store) (ns clientId channel : string) : Prop :=
  is_Some (as_set (db s !! (ns +:+ "/clients/" +:+ clientId +:+ "/channels")))
  ∧ is_Some (as_set (db s !! (ns +:+ "/channels" +:+ channel))).

(** What [destroyClient] tells the server about one channel, given the
    channels [F] the client still had when the batch ran. *)
Definition left_channel (clientId : string) (F : gset string)
    (channel : string) : list event :=
  if decide (channel ∈ F)
  then [Trigger "unsubscribe" [Engine.str clientId; Engine.str channel];
        Debug "Unsubscribed client ? from channel ?"
          [Engine.str clientId; Engine.str channel]]
  else [].

(** Callbacks that leave a trace in the log. *)
Definition answer (name : string) (b : bool) : prog :=
  Emit (Called name [Some (JBool b)]) Done.

Definition returned (name : string) (clientId : string) : prog :=
  Emit (Called name [Some (JString clientId)]) Done.

Definition completed (name : string) : prog :=
  Emit (Called name []) Done.

(** The calls of a recording callback in a log. *)
Definition calls (name : string) (l : list event)
    : list (list (option json)) :=
  omap (λ e, match e with
             | Called n args => if String.eqb n name then Some args else None
             | _ => None
             end) l.

(** The console errors in a log. *)
Definition errors (l : list event) : list string :=
  omap (λ e, match e with ConsoleError m => Some m | _ => None end) l.

(** The requests sent to the store, in order. *)
Definition requests (l : list event) : list request :=
  omap (λ e, match e with Sent rq _ => Some rq | _ => None end) l.

(** A process in the middle of a sweep over [n] clients: [done]
    completions counted in [cell], the other destroys still suspended, and
    the release called exactly when the count has reached [n]. *)
Definition sweeping (ns : string) (cell n : nat) (P : string -> Prop)
    (p : proc) : Prop :=
  ∃ done,
    heap p !! cell = Some done
    ∧ Forall (destroying ns (completion cell n release) P) (tasks p)
    ∧ (done + length (tasks p) = n)%nat
    ∧ calls "release" (log p) = (if (done =? n)%nat then [[]] else []).

(** The round trips a suspended [destroyClient] still needs, at most. *)
Definition steps_left (t : prog) : nat :=
  match t with
  | Await (Single _) _ _ => 2
  | Await (MultiExec _) _ _ => 1
  | _ => 0
  end.

Definition pending (l : list prog) : nat :=
  foldr (λ t n, (steps_left t + n)%nat) 0%nat l.

(** The key a command writes to, when it writes. *)
Definition written (c : command) : option string :=
  match c with
  | ZADD key _ _ _ | ZREM key _ | SADD key _ | SREM key _ | RPUSH key _
  | DEL key | SETNX key _ | SET_GET key _ => Some key
  | _ => None
  end.

(** The key of a removing command holds what the command expects; a
    missing key fits every command. *)
Definition fits (c : command) (s : store) : Prop :=
  match c with
  | ZREM key _ => is_Some (as_zset (db s !! key))
  | SREM key _ => is_Some (as_set (db s !! key))
  | DEL _ | PUBLISH _ _ => True
  | _ => False
  end.

(** A key that holds [e'] after held a value of the same type in [e]
    before. *)
Definition kind_kept (e e' : option entry) : Prop :=
  match e' with
  | None => True
  | Some (ZSet _) => match e with Some (ZSet _) => True | _ => False end
  | Some (SSet _) => match e with Some (SSet _) => True | _ => False end
  | Some (LList _) => match e with Some (LList _) => True | _ => False end
  | Some (Str _) => match e with Some (Str _) => True | _ => False end
  end.

(** A schedule during which nobody else touches the world. *)
Definition alone (schedule : list (nat * tick)) : Prop :=
  Forall (λ it, ∀ w, interfere it.2 w = w) schedule.

End Spec.

(** ** A JSON codec to run the engine with

    A printer and a reader for [json], in the concrete syntax of JSON
    without white space; strings escape the quote and the backslash. *)

Module Codec.

Definition quote_char : ascii := "034"%char.
Definition backslash : ascii := "092"%char.

Fixpoint escape (s : string) : string :=
  match s with
  | EmptyString => EmptyString
  | String a r =>
      if (Ascii.eqb a quote_char || Ascii.eqb a backslash)%bool
      then String backslash (String a (escape r))
      else String a (escape r)
  end.

Definition quoted (s : string) : string :=
  String quote_char (escape s +:+ String quote_char EmptyString).

Fixpoint separated (l : list string) : string :=
  match l with
  | [] => ""
  | [x] => x
  | x :: rest => x +:+ "," +:+ separated rest
  end.

Fixpoint print (j : json) : string :=
  match j with
  | JNull => "null"
  | JBool true => "true"
  | JBool false => "false"
  | JNumber n => JS.toString n
  | JString s => quoted s
  | JArray items => "[" +:+ separated (map print items) +:+ "]"
  | JObject fields =>
      "{" +:+ separated (map (λ kv, quoted kv.1 +:+ ":" +:+ print kv.2) fields)
          +:+ "}"
  end.

(** [s] without the prefix [pre]. *)
Fixpoint after (pre s : string) : option string :=
  match pre, s with
  | EmptyString, _ => Some s
  | String a pre, String b s => if Ascii.eqb a b then after pre s else None
  | _, _ => None
  end.

(** The characters up to the closing quote, and what follows it. *)
Fixpoint read_chars (s : string) : option (string * string) :=
  match s with
  | EmptyString => None
  | String a r =>
      if Ascii.eqb a quote_char then Some (EmptyString, r)
      else if Ascii.eqb a backslash then
        match r with
        | String b r' =>
            match read_chars r' with
            | Some (body, rest) => Some (String b body, rest)
            | None => None
            end
        | EmptyString => None
        end
      else
        match read_chars r with
        | Some (body, rest) => Some (String a body, rest)
        | None => None
        end
  end.

(** What follows the leading digits. *)
Fixpoint skip_digits (s : string) : string :=
  match s with
  | String a r =>
      match JS.digit_of a with
      | Some _ => skip_digits r
      | None => s
      end
  | EmptyString => s
  end.

Definition read_number (s : string) : option (json * string) :=
  match JS.integer s with
  | Some z =>
      let rest := match s with
                  | String "-"%char r => skip_digits r
                  | _ => skip_digits s
                  end in
      Some (JNumber z, rest)
  | None => None
  end.

Fixpoint read_value (fuel : nat) (s : string) {struct fuel}
    : option (json * string) :=
  match fuel with
  | O => None
  | S fuel =>
      match s with
      | String "n"%char r => (λ rest, (JNull, rest)) <$> after "ull" r
      | String "t"%char r => (λ rest, (JBool true, rest)) <$> after "rue" r
      | String "f"%char r => (λ rest, (JBool false, rest)) <$> after "alse" r
      | String "["%char (String "]"%char rest) => Some (JArray [], rest)
      | String "["%char r =>
          match read_items fuel r with
          | Some (items, rest) => Some (JArray items, rest)
          | None => None
          end
      | String "{"%char (String "}"%char rest) => Some (JObject [], rest)
      | String "{"%char r =>
          match read_fields fuel r with
          | Some (fields, rest) => Some (JObject fields, rest)
          | None => None
          end
      | String a r =>
          if Ascii.eqb a quote_char
          then match read_chars r with
               | Some (body, rest) => Some (JString body, rest)
               | None => None
               end
          else read_number s
      | EmptyString => None
      end
  end

with read_items (fuel : nat) (s : string) {struct fuel}
    : option (list json * string) :=
  match fuel with
  | O => None
  | S fuel =>
      match read_value fuel s with
      | Some (item, String ","%char rest) =>
          match read_items fuel rest with
          | Some (items, rest') => Some (item :: items, rest')
          | None => None
          end
      | Some (item, String "]"%char rest) => Some ([item], rest)
      | _ => None
      end
  end

with read_fields (fuel : nat) (s : string) {struct fuel}
    : option (list (string * json) * string) :=
  match fuel with
  | O => None
  | S fuel =>
      match s with
      | String a r =>
          if Ascii.eqb a quote_char
          then
            match read_chars r with
            | Some (name, String ":"%char rest) =>
                match read_value fuel rest with
                | Some (v, String ","%char rest') =>
                    match read_fields fuel rest' with
                    | Some (fields, rest'') =>
                        Some ((name, v) :: fields, rest'')
                    | None => None
                    end
                | Some (v, String "}"%char rest') => Some ([(name, v)], rest')
                | _ => None
                end
            | _ => None
            end
          else None
      | EmptyString => None
      end
  end.

(** The whole text is one value. *)
Definition read (s : string) : option json :=
  match read_value (String.length s) s with
  | Some (j, EmptyString) => Some j
  | _ => None
  end.

Definition JSON : JSON_t := {| stringify := print; parse := read |}.

End Codec.

(** ** Sample servers and stores *)

Module Sample.
Import Redis Async.

(** Identifiers "dup", "dup", "id2", "id3", ... *)
Definition ids (n : nat) : string :=
  match n with
  | 0%nat | 1%nat => "dup"
  | _ => "id" +:+ JS.toString (Z.of_nat n)
  end.

Definition server (timeout : JS.value) : FayeServer :=
  {| timeout := timeout; generateId := ids; hasConnection := λ _, true |}.

(** A heartbeat of 45 seconds, as in the tests. *)
Definition usual : FayeServer := server (JS.Num (JS.of_Z 45)).

(** One engine process listens to the two notification channels. *)
Definition one_engine : gmap string nat :=
  {[ "/notifications/messages" := 1%nat; "/notifications/close" := 1%nat ]}.

Definition sessions (l : list (string * Z)) : store :=
  {| db := {[ "/clients" := ZSet (list_to_map l) ]}; pubsub := [];
     listeners := one_engine |}.

(** The client "c" holds "/a" in its own channel set, but the channel
    "/a" does not list it. *)
Definition half_subscribed : store :=
  {| db := {[ "/clients" := ZSet {[ "c" := 1700000000000 ]};
              "/clients/c/channels" := SSet {[ "/a" ]} ]};
     pubsub := []; listeners := one_engine |}.

(** A tick on which the request fails. *)
Definition failing : tick := {| interfere := λ w, w; fault := true |}.

(** "c" is live and listed by "/a" and "/b"; "d" is stale and listed by
    "/a". *)
Definition two_channels : store :=
  {| db := {[ "/clients" := ZSet {[ "c" := 1700000000000; "d" := 1 ]};
              "/channels/a" := SSet {[ "c"; "d" ]};
              "/channels/b" := SSet {[ "c" ]} ]};
     pubsub := []; listeners := one_engine |}.

(** A message as the bus hands it to [publish]. *)
Definition hello : list (string * json) :=
  [("clientId", JString "p"); ("channel", JString "/a");
   ("data", JObject [("text", JString "hello"); ("n", JNumber 7);
                     ("tags", JArray [JNull; JBool true])])].

(** A callback for [_withLock] that records its call and releases the
    lock at once. *)
Definition holder (release handler : prog) : prog :=
  Emit (Called "holder" []) release.

Definition at_time (now : Z) (s : store) : world :=
  {| redis := s; clock := now |}.

End Sample.

(** * Facts *)

(** ** Numbers and strings *)

Lemma digits_string_of_uint (d : uint) :
  JS.digits (NilEmpty.string_of_uint d) = d.
Proof. induction d; simpl; congruence. Qed.

Lemma magnitude_string_of_uint (d : uint) (sign : Z) :
  d ≠ Decimal.Nil →
  JS.magnitude (NilEmpty.string_of_uint d) sign = Some (sign * Z.of_uint d).
Proof.
  intros Hd. unfold JS.magnitude. rewrite digits_string_of_uint.
  by destruct d.
Qed.

Lemma integer_digit (a : ascii) (s : string) (f : uint → uint) :
  JS.digit_of a = Some f →
  JS.integer (String a s) = JS.magnitude (String a s) 1.
Proof.
  intros H.
  destruct a as [[] [] [] [] [] [] [] []]; simpl in H; try discriminate H;
    reflexivity.
Qed.

Lemma string_of_uint_head (d : uint) :
  d ≠ Decimal.Nil →
  ∃ a s f, NilEmpty.string_of_uint d = String a s ∧ JS.digit_of a = Some f.
Proof. destruct d; [done | ..]; intros _; simpl; eauto. Qed.

(** An integer is read back from its digits. *)
Lemma integer_toString (z : Z) : JS.integer (JS.toString z) = Some z.
Proof.
  pose proof (DecimalZ.of_to z) as Hz.
  unfold JS.toString. destruct z as [|p|p]; simpl Z.to_int in *.
  - reflexivity.
  - pose proof (Unsigned.to_uint_nonnil p) as Hn.
    unfold NilZero.string_of_int, NilZero.string_of_uint.
    destruct (string_of_uint_head _ Hn) as (a & s & f & Hs & Ha).
    replace (match Pos.to_uint p with
             | Decimal.Nil => "0"
             | _ => NilEmpty.string_of_uint (Pos.to_uint p)
             end) with (NilEmpty.string_of_uint (Pos.to_uint p))
      by (by destruct (Pos.to_uint p)).
    rewrite Hs, (integer_digit _ _ _ Ha), <- Hs.
    rewrite magnitude_string_of_uint by done.
    simpl in Hz. rewrite Hz. f_equal.
  - pose proof (Unsigned.to_uint_nonnil p) as Hn.
    unfold NilZero.string_of_int, NilZero.string_of_uint.
    replace (match Pos.to_uint p with
             | Decimal.Nil => "0"
             | _ => NilEmpty.string_of_uint (Pos.to_uint p)
             end) with (NilEmpty.string_of_uint (Pos.to_uint p))
      by (by destruct (Pos.to_uint p)).
    change (JS.integer (String "-" ?s)) with (JS.magnitude s (-1)).
    rewrite magnitude_string_of_uint by done.
    simpl in Hz. f_equal. lia.
Qed.

Lemma parseInt_toString (z : Z) : JS.parseInt (JS.toString z) = JS.of_Z z.
Proof. unfold JS.parseInt. by rewrite integer_toString. Qed.

(** ** Integers as binary64 numbers *)

Lemma digits2_size p : digits2_pos p = Pos.size p.
Proof. induction p; simpl; congruence. Qed.

Lemma digits2_iter p k :
  digits2_pos (Pos.iter xO p k) = (digits2_pos p + k)%positive.
Proof.
  revert p. induction k using Pos.peano_ind; intros p.
  - simpl. lia.
  - rewrite Pos.iter_succ. simpl. rewrite IHk. lia.
Qed.

Lemma size_bound p : Zpos p < 2 ^ 53 → Zpos (Pos.size p) <= 53.
Proof.
  intros H. pose proof (Pos.size_le p) as H1.
  destruct (Z_le_gt_dec (Zpos (Pos.size p)) 53) as [|Hgt]; [done|].
  exfalso.
  assert (2 ^ 54 <= Zpos (2 ^ Pos.size p)).
  { rewrite Pos2Z.inj_pow. apply Z.pow_le_mono_r; lia. }
  lia.
Qed.

Lemma round_pos s p :
  Zpos p < 2 ^ 53 →
  binary_round prec emax s p 0
  = S754_finite s (JS.normal p).1 (JS.normal p).2.
Proof.
  intros Hp. pose proof (size_bound p Hp) as Hd.
  unfold binary_round, JS.normal, shl_align, fexp, SpecFloat.emin.
  rewrite digits2_size.
  change prec with 53. change emax with 1024.
  replace (Z.max (Z.pos (Pos.size p) + 0 - 53) (3 - 1024 - 53) - 0)
    with (- (53 - Z.pos (Pos.size p))) by lia.
  replace (Z.max (Z.pos (Pos.size p) + 0 - 53) (3 - 1024 - 53))
    with (- (53 - Z.pos (Pos.size p))) by lia.
  destruct (53 - Z.pos (Pos.size p)) as [|k|k] eqn:E; try lia.
  - change (- 0) with 0. cbv iota beta.
    unfold binary_round_aux, shr_fexp, fexp, SpecFloat.emin. cbn [Zdigits2].
    rewrite digits2_size.
    replace (Z.pos (Pos.size p)) with 53 by lia.
    change (Z.max (53 + 0 - 53) (3 - 1024 - 53) - 0) with 0.
    cbn [shr shr_record_of_loc shr_m loc_of_shr_record round_nearest_even].
    cbn [Zdigits2]. rewrite digits2_size.
    replace (Z.pos (Pos.size p)) with 53 by lia.
    change (Z.max (53 + 0 - 53) (3 - 1024 - 53) - 0) with 0.
    cbn [shr shr_m]. done.
  - change (- Z.pos k) with (Z.neg k). cbv iota beta.
    unfold binary_round_aux, shr_fexp, fexp, SpecFloat.emin. cbn [Zdigits2].
    rewrite digits2_iter, digits2_size.
    replace (Z.pos (Pos.size p + k)) with 53 by lia.
    replace (Z.max (53 + Z.neg k - 53) (3 - 1024 - 53) - Z.neg k) with 0 by lia.
    cbn [shr shr_record_of_loc shr_m loc_of_shr_record round_nearest_even].
    cbn [Zdigits2]. rewrite digits2_iter, digits2_size.
    replace (Z.pos (Pos.size p + k)) with 53 by lia.
    replace (Z.max (53 + Z.neg k - 53) (3 - 1024 - 53) - Z.neg k) with 0 by lia.
    cbn [shr shr_m].
    replace (Z.neg k <=? 1024 - 53) with true by (symmetry; apply Z.leb_le; lia).
    done.
Qed.

Lemma iter_xO_pow p k : Z.pos (Pos.iter xO p k) = Z.pos p * 2 ^ Z.pos k.
Proof.
  induction k using Pos.peano_ind.
  - simpl. lia.
  - rewrite Pos.iter_succ, Pos2Z.inj_succ, Z.pow_succ_r by lia.
    rewrite Pos2Z.inj_xO, IHk. lia.
Qed.

Lemma normal_spec p :
  Zpos p < 2 ^ 53 →
  (JS.normal p).2 = Z.pos (Pos.size p) - 53
  ∧ Z.pos (JS.normal p).1 = Z.pos p * 2 ^ (53 - Z.pos (Pos.size p))
  ∧ Z.pos (digits2_pos (JS.normal p).1) = 53.
Proof.
  intros Hp. pose proof (size_bound p Hp) as Hd. unfold JS.normal.
  destruct (53 - Z.pos (Pos.size p)) as [|k|k] eqn:E; try lia; cbn [fst snd].
  - pose proof (digits2_size p). lia.
  - pose proof (digits2_size p). rewrite iter_xO_pow, digits2_iter. lia.
Qed.

Lemma size_lt p q : (Pos.size p < Pos.size q)%positive → (p < q)%positive.
Proof.
  intros H. pose proof (Pos.size_gt p) as H1. pose proof (Pos.size_le q) as H2.
  assert (Z.pos (2 ^ Pos.size p) * 2 <= Z.pos (2 ^ Pos.size q)).
  { rewrite !Pos2Z.inj_pow.
    replace (Z.pos (Pos.size q))
      with (Z.pos (Pos.size p) + (Z.pos (Pos.size q) - Z.pos (Pos.size p)))
      by lia.
    rewrite Z.pow_add_r by lia.
    assert (2 ^ 1 <= 2 ^ (Z.pos (Pos.size q) - Z.pos (Pos.size p)))
      by (apply Z.pow_le_mono_r; lia).
    assert (0 < 2 ^ Z.pos (Pos.size p)) by (apply Z.pow_pos_nonneg; lia).
    nia. }
  lia.
Qed.

(** The binary64 values of two positive integers below 2^53 compare as
    the integers do. *)
Lemma compare_normal p q :
  Zpos p < 2 ^ 53 → Zpos q < 2 ^ 53 →
  match Z.compare (JS.normal p).2 (JS.normal q).2 with
  | Lt => Lt
  | Gt => Gt
  | Eq => Pos.compare_cont Eq (JS.normal p).1 (JS.normal q).1
  end = Pos.compare p q.
Proof.
  intros Hp Hq.
  pose proof (size_bound p Hp) as Sp. pose proof (size_bound q Hq) as Sq.
  destruct (normal_spec p Hp) as (Ep & Mp & _).
  destruct (normal_spec q Hq) as (Eq_ & Mq & _).
  rewrite Ep, Eq_.
  destruct (Z.compare_spec (Z.pos (Pos.size p) - 53) (Z.pos (Pos.size q) - 53))
    as [H|H|H].
  - change (Pos.compare_cont Eq (JS.normal p).1 (JS.normal q).1)
      with (Z.compare (Z.pos (JS.normal p).1) (Z.pos (JS.normal q).1)).
    change (Pos.compare p q) with (Z.compare (Z.pos p) (Z.pos q)).
    rewrite Mp, Mq.
    replace (Z.pos (Pos.size q)) with (Z.pos (Pos.size p)) by lia.
    symmetry. apply Zmult_compare_compat_r.
    apply Z.lt_gt, Z.pow_pos_nonneg; lia.
  - symmetry. apply Pos.compare_lt_iff, size_lt. lia.
  - symmetry. apply Pos.compare_gt_iff, size_lt. lia.
Qed.

Lemma normal_bounded p :
  Zpos p < 2 ^ 53 → bounded prec emax (JS.normal p).1 (JS.normal p).2 = true.
Proof.
  intros Hp. destruct (normal_spec p Hp) as (E & _ & D).
  pose proof (size_bound p Hp).
  unfold bounded, canonical_mantissa, fexp, SpecFloat.emin. rewrite D, E.
  change prec with 53. change emax with 1024.
  apply andb_true_intro. split; [apply Z.eqb_eq | apply Z.leb_le]; lia.
Qed.

Lemma SF_valid z : Z.abs z < 2 ^ 53 → valid_binary (JS.SF z) = true.
Proof.
  intros Hz. unfold JS.SF, binary_normalize.
  destruct z as [|p|p]; [done|..]; rewrite round_pos by lia;
    apply normal_bounded; lia.
Qed.

Lemma SF_compare a b :
  Z.abs a < 2 ^ 53 → Z.abs b < 2 ^ 53 →
  SFcompare (JS.SF a) (JS.SF b) = Some (Z.compare a b).
Proof.
  intros Ha Hb. unfold JS.SF, binary_normalize.
  destruct a as [|p|p], b as [|q|q]; try done;
    rewrite ?round_pos by lia; try done; cbn [SFcompare]; f_equal.
  - rewrite compare_normal by lia. done.
  - pose proof (compare_normal p q ltac:(lia) ltac:(lia)) as H.
    change (Z.neg p ?= Z.neg q) with (CompOpp (Pos.compare p q)).
    rewrite <- H.
    by destruct (Z.compare (JS.normal p).2 (JS.normal q).2).
Qed.

Lemma Prim2SF_of_Z z : JS.safe z → Prim2SF (JS.of_Z z) = JS.SF z.
Proof. intros Hz. apply Prim2SF_SF2Prim. by apply SF_valid. Qed.

(** On safe integers [<] and [<=] are the order of the integers. *)
Lemma lt_of_Z (a b : Z) :
  JS.safe a → JS.safe b →
  JS.lt (JS.of_Z a) (JS.of_Z b) = bool_decide (a < b).
Proof.
  intros Ha Hb. unfold JS.lt. rewrite ltb_spec, !Prim2SF_of_Z by done.
  unfold SFltb. rewrite SF_compare by done.
  destruct (Z.compare_spec a b);
    [rewrite bool_decide_eq_false_2 | rewrite bool_decide_eq_true_2
    | rewrite bool_decide_eq_false_2]; done || lia.
Qed.

Lemma le_of_Z (a b : Z) :
  JS.safe a → JS.safe b →
  JS.le (JS.of_Z a) (JS.of_Z b) = bool_decide (a <= b).
Proof.
  intros Ha Hb. unfold JS.le. rewrite leb_spec, !Prim2SF_of_Z by done.
  unfold SFleb. rewrite SF_compare by done.
  destruct (Z.compare_spec a b);
    [rewrite bool_decide_eq_true_2 | rewrite bool_decide_eq_true_2
    | rewrite bool_decide_eq_false_2]; done || lia.
Qed.

(** ** Logs *)

Lemma triggered_app name l1 l2 :
  Async.triggered name (l1 ++ l2) = Async.triggered name l1 ++ Async.triggered name l2.
Proof. unfold Async.triggered. apply omap_app. Qed.

Lemma calls_app name l1 l2 :
  Spec.calls name (l1 ++ l2) = Spec.calls name l1 ++ Spec.calls name l2.
Proof. unfold Spec.calls. apply omap_app. Qed.

Lemma errors_app l1 l2 :
  Spec.errors (l1 ++ l2) = Spec.errors l1 ++ Spec.errors l2.
Proof. unfold Spec.errors. apply omap_app. Qed.

Lemma requests_app l1 l2 :
  Spec.requests (l1 ++ l2) = Spec.requests l1 ++ Spec.requests l2.
Proof. unfold Spec.requests. apply omap_app. Qed.

(** ** The scheduler *)

Section Scheduler.
Import Redis Async.

Variable gen : nat → string.

Lemma world_eta (w : world) : {| redis := redis w; clock := clock w |} = w.
Proof. by destruct w. Qed.

Lemma record_all_nil p : record_all [] p = p.
Proof. destruct p. unfold record_all. cbn. by rewrite app_nil_r. Qed.

Lemma record_all_cons e l p : record_all (e :: l) p = record_all l (record e p).
Proof. unfold record_all, record. cbn. by rewrite <- app_assoc. Qed.

Lemma record_all_app l1 l2 p :
  record_all (l1 ++ l2) p = record_all l2 (record_all l1 p).
Proof. unfold record_all. cbn. by rewrite app_assoc. Qed.

Lemma record_one e p : record e p = record_all [e] p.
Proof. reflexivity. Qed.

Lemma record_all_join l1 l2 p :
  record_all l2 (record_all l1 p) = record_all (l1 ++ l2) p.
Proof. by rewrite record_all_app. Qed.

Lemma delete_last {A} (l : list A) (x : A) : delete (length l) (l ++ [x]) = l.
Proof. induction l as [|a l IH]; simpl; [done | by rewrite IH]. Qed.

Lemma call_Done c : call gen Done c = c.
Proof. by destruct c. Qed.

Lemma call_Now k c : call gen (Now k) c = call gen (k (clock c.1)) c.
Proof. reflexivity. Qed.

Lemma call_Emit e k w p : call gen (Emit e k) (w, p) = call gen k (w, record e p).
Proof. reflexivity. Qed.

Lemma call_Spawn task k w p :
  call gen (Spawn task k) (w, p) =
  call gen k (w, suspend (sync gen task (clock w) p).2
                   (sync gen task (clock w) p).1).
Proof.
  unfold call. cbn [fst snd sync].
  by destruct (sync gen task (clock w) p).
Qed.

Lemma call_Await rq k h w p :
  call gen (Await rq k h) (w, p) = (w, suspend (Await rq k h) p).
Proof. reflexivity. Qed.

(** The answer to the request of the task suspended last. *)
Lemma step_last rq k h t w p :
  step gen (length (tasks p)) t (w, suspend (Await rq k h) p) =
  let w' := interfere t w in
  if fault t
  then call gen h (w', record (Sent rq None) p)
  else
    let sr := exec rq (redis w') in
    call gen (if is_error sr.2 then h else k sr.2)
         ({| redis := sr.1; clock := clock w' |},
          record (Sent rq (Some sr.2)) p).
Proof.
  unfold step. cbn [fst snd suspend tasks].
  rewrite lookup_app_r, Nat.sub_diag by done. cbn [lookup list_lookup].
  rewrite delete_last.
  destruct (fault t); cbn zeta.
  - rewrite world_eta. unfold call, record. cbn [fst snd].
    by destruct (sync _ _ _ _).
  - destruct (exec rq (redis (interfere t w))) as [s r]. cbn [fst snd].
    unfold call, record. cbn [fst snd clock].
    by destruct (sync _ _ _ _).
Qed.

Lemma serve_nil t c : serve gen t [] c = call gen t c.
Proof. reflexivity. Qed.

Lemma serve_Done ticks c : serve gen Done ticks c = run gen (map (λ t, (length (tasks c.2), t)) ticks) c.
Proof. unfold serve. by rewrite call_Done. Qed.

Lemma serve_Now k ticks c :
  serve gen (Now k) ticks c = serve gen (k (clock c.1)) ticks c.
Proof. reflexivity. Qed.

Lemma serve_Emit e k ticks w p :
  serve gen (Emit e k) ticks (w, p) = serve gen k ticks (w, record e p).
Proof. reflexivity. Qed.

Lemma serve_Await rq k h t ticks w p :
  serve gen (Await rq k h) (t :: ticks) (w, p) =
  let w' := interfere t w in
  if fault t
  then serve gen h ticks (w', record (Sent rq None) p)
  else
    let sr := exec rq (redis w') in
    serve gen (if is_error sr.2 then h else k sr.2) ticks
          ({| redis := sr.1; clock := clock w' |},
           record (Sent rq (Some sr.2)) p).
Proof.
  unfold serve at 1. rewrite call_Await. cbn [map run snd].
  rewrite step_last. cbn zeta. by destruct (fault t).
Qed.

End Scheduler.

(** * The existence check *)

Section ClientExists.
Import Redis Async Engine.

Variable srv : FayeServer.
Variable ns : string.

Local Abbreviation gen := (generateId srv).
Local Abbreviation key := (ns +:+ "/clients").

(** What the existence check answers, whatever surrounds its one read. *)
Lemma clientExists_serve clientId callback w p t ticks :
  let w' := interfere t w in
  let rq := Single (ZSCORE key clientId) in
  let late := Emit (ConsoleError "Error checking client existence:")
                   (callback false) in
  serve gen (clientExists srv ns clientId callback) (t :: ticks) (w, p) =
  if fault t then serve gen late ticks (w', record (Sent rq None) p)
  else
    match db (redis w') !! key with
    | None =>
        serve gen (callback false) ticks (w', record (Sent rq (Some Nil)) p)
    | Some (ZSet m) =>
        match m !! clientId with
        | None =>
            serve gen (callback false) ticks
              (w', record (Sent rq (Some Nil)) p)
        | Some score =>
            serve gen
              (callback
                 (negb (score =? 0) &&
                  JS.gt (JS.of_Z score)
                        (Spec.cutoff 1.6%float (clock w) (JS.ToNumber (timeout srv)))))
              ticks
              (w', record (Sent rq (Some (Int score))) p)
        end
    | Some _ =>
        serve gen late ticks (w', record (Sent rq (Some WRONGTYPE)) p)
    end.
Proof.
  intros w' rq late. unfold clientExists. rewrite serve_Now.
  rewrite serve_Await. fold w'. cbn zeta.
  destruct (fault t); [done|].
  cbn [exec exec_command].
  destruct (db (redis w') !! key) as [[m| | |]|] eqn:E; cbn [as_zset fst snd];
    try by rewrite world_eta.
  - destruct (m !! clientId) as [score|] eqn:Em; cbn [fst snd is_error];
      rewrite world_eta; [|done].
    cbn [truthy parseInt]. rewrite parseInt_toString.
    by destruct (score =? 0).
  - rewrite lookup_empty. cbn [fst snd is_error truthy].
    by rewrite world_eta.
Qed.

End ClientExists.

Section ClientExistsClaims.
Import Redis Async Engine.

Variable srv : FayeServer.
Variable ns : string.

Local Abbreviation gen := (generateId srv).
Local Abbreviation rq c := (Single (ZSCORE (ns +:+ "/clients") c)).

(** C10.  A session whose stored score is 0 (the state [createClient]
    leaves before its first ping lands, and the state the first command of
    the batch of [destroyClient] writes) does not exist for the existence
    check: the callback gets [false], for every value of the timeout and
    whether or not the read fails. *)
Theorem clientExists_score_zero clientId callback w p t :
  Spec.score (redis (interfere t w)) ns clientId = Some 0 →
  serve gen (clientExists srv ns clientId callback) [t] (w, p) =
  call gen (callback false)
    (interfere t w,
     if fault t
     then record (ConsoleError "Error checking client existence:")
            (record (Sent (rq clientId) None) p)
     else record (Sent (rq clientId) (Some (Int 0))) p).
Proof.
  intros H. rewrite clientExists_serve. cbn zeta.
  unfold serve. cbn [map run].
  destruct (fault t); [done|].
  unfold Spec.score in H.
  destruct (db (redis (interfere t w)) !! (ns +:+ "/clients"))
    as [[m| | |]|]; try done.
  by rewrite H.
Qed.

(** C4, amended.  The stored score being a safe integer, the existence
    check answers [true] exactly when the read succeeds and the session
    set holds the client with a score that is not 0 and is greater than
    [now - 1000 * 1.6 * timeout], the cutoff as JavaScript computes it in
    binary64; in every other case the callback gets [false].  A read that
    is rejected, or that meets a key of another type, is reported on the
    console and answered [false]. *)
Theorem clientExists_answer clientId callback w p t :
  let w' := interfere t w in
  let cutoff :=
    Spec.cutoff 1.6%float (clock w) (JS.ToNumber (timeout srv)) in
  (∀ score, Spec.score (redis w') ns clientId = Some score → JS.safe score) →
  ∃ b answer failed,
    serve gen (clientExists srv ns clientId callback) [t] (w, p) =
      call gen (callback b)
        (w', record_all
               (Sent (rq clientId) answer
                :: (if failed : bool
                    then [ConsoleError "Error checking client existence:"]
                    else [])) p)
    ∧ (failed = true
       ↔ fault t = true
         ∨ as_zset (db (redis w') !! (ns +:+ "/clients")) = None)
    ∧ (b = true ↔
       fault t = false ∧
       ∃ score,
         Spec.score (redis w') ns clientId = Some score
         ∧ score ≠ 0
         ∧ JS.gt (JS.of_Z score) cutoff = true).
Proof.
  cbn zeta. intros _. rewrite clientExists_serve. cbn zeta. unfold Spec.score.
  unfold serve. cbn [map run].
  destruct (fault t).
  { exists false, None, true. rewrite call_Emit.
    split; [by rewrite record_all_cons, record_all_cons, record_all_nil|].
    split; [by split; [left|] |]. split; [done | by intros [? _]]. }
  destruct (db (redis (interfere t w)) !! (ns +:+ "/clients"))
    as [[m| | |]|]; cbn [as_zset].
  - destruct (m !! clientId) as [score|].
    + eexists _, (Some (Int score)), false.
      split; [by rewrite record_all_cons, record_all_nil|].
      split; [by split; [|intros [|]] |].
      rewrite andb_true_iff, negb_true_iff, Z.eqb_neq. split.
      * intros [? ?]. split; [done|]. by exists score.
      * intros [_ (score' & [= <-] & ? & ?)]. done.
    + exists false, (Some Nil), false.
      split; [by rewrite record_all_cons, record_all_nil|].
      split; [by split; [|intros [|]] |].
      split; [done | by intros [_ (? & ? & _)]].
  - exists false, (Some WRONGTYPE), true. rewrite call_Emit.
    split; [by rewrite record_all_cons, record_all_cons, record_all_nil|].
    split; [by split; [right|] |].
    split; [done | by intros [_ (? & ? & _)]].
  - exists false, (Some WRONGTYPE), true. rewrite call_Emit.
    split; [by rewrite record_all_cons, record_all_cons, record_all_nil|].
    split; [by split; [right|] |].
    split; [done | by intros [_ (? & ? & _)]].
  - exists false, (Some WRONGTYPE), true. rewrite call_Emit.
    split; [by rewrite record_all_cons, record_all_cons, record_all_nil|].
    split; [by split; [right|] |].
    split; [done | by intros [_ (? & ? & _)]].
  - exists false, (Some Nil), false.
    split; [by rewrite record_all_cons, record_all_nil|].
    split; [by split; [|intros [|]] |].
    split; [done | by intros [_ (? & ? & _)]].
Qed.

End ClientExistsClaims.

(** C10 at a heartbeat of 45 seconds: the member "c" is in the session set
    with score 0, and the check answers [false]. *)
Lemma clientExists_score_zero_witness :
  let w := Sample.at_time 1700000000000 (Sample.sessions [("c", 0)]) in
  Spec.score (Async.redis w) "" "c" = Some 0 ∧
  Async.serve Sample.ids
    (Engine.clientExists Sample.usual "" "c" (Spec.answer "exists"))
    [Async.quiet] (w, Async.idle) =
  Async.call Sample.ids (Spec.answer "exists" false)
    (w, Async.record
          (Async.Sent (Redis.Single (Redis.ZSCORE "/clients" "c"))
                      (Some (Redis.Int 0)))
          Async.idle).
Proof.
  split; [reflexivity|].
  apply (clientExists_score_zero Sample.usual "" "c" (Spec.answer "exists")
           _ Async.idle Async.quiet).
  reflexivity.
Defined.

(** At a heartbeat of 45.0000000001 seconds and time 1 700 000 000 000
    the cutoff is rounded to 1 699 999 928 000: a session with that very
    score is not greater than the cutoff, and the check answers [false]. *)
Lemma clientExists_answer_witness :
  let srv := Sample.server (JS.Num 45.0000000001%float) in
  let w := Sample.at_time 1700000000000
             (Sample.sessions [("c", 1699999928000)]) in
  (∀ score, Spec.score (Async.redis w) "" "c" = Some score → JS.safe score)
  ∧ Spec.cutoff 1.6%float 1700000000000 45.0000000001%float
    = JS.of_Z 1699999928000
  ∧ ∃ answer failed,
      Async.serve Sample.ids
        (Engine.clientExists srv "" "c" (Spec.answer "exists"))
        [Async.quiet] (w, Async.idle)
      = Async.call Sample.ids (Spec.answer "exists" false)
          (w, Async.record_all
                (Async.Sent (Redis.Single (Redis.ZSCORE "/clients" "c")) answer
                 :: (if failed : bool
                     then [Async.ConsoleError
                             "Error checking client existence:"]
                     else [])) Async.idle).
Proof.
  assert (H : ∀ score,
            Spec.score (Sample.sessions [("c", 1699999928000)]) "" "c"
            = Some score → JS.safe score).
  { intros score Hs. vm_compute in Hs. injection Hs as <-. reflexivity. }
  split; [exact H|]. split; [reflexivity|].
  destruct (clientExists_answer
              (Sample.server (JS.Num 45.0000000001%float)) "" "c"
              (Spec.answer "exists")
              (Sample.at_time 1700000000000
                 (Sample.sessions [("c", 1699999928000)]))
              Async.idle Async.quiet H)
    as (b & answer & failed & Heq & _ & Hb).
  assert (Hfalse : b = false).
  { destruct b; [|reflexivity].
    destruct (proj1 Hb eq_refl) as (_ & score & Hs & _ & Hgt).
    vm_compute in Hs. injection Hs as <-. vm_compute in Hgt.
    discriminate Hgt. }
  subst b. exists answer, failed. exact Heq.
Defined.

(** C4 as stated fails: with a heartbeat of 2 000 000 000 seconds the
    cutoff is negative, the member "c" is present with score 0, which is
    more recent than the cutoff, and the check still answers [false]. *)
Lemma clientExists_counterexample :
  let srv := Sample.server (JS.Num (JS.of_Z 2000000000)) in
  let w := Sample.at_time 1700000000000 (Sample.sessions [("c", 0)]) in
  let cutoff := Spec.cutoff 1.6%float (Async.clock w) (JS.ToNumber (timeout srv)) in
  let c := Async.serve Sample.ids
             (Engine.clientExists srv "" "c" (Spec.answer "exists"))
             [Async.quiet] (w, Async.idle) in
  Spec.score (Async.redis w) "" "c" = Some 0
  ∧ JS.gt (JS.of_Z 0) cutoff = true
  ∧ Spec.calls "exists" (Async.log c.2) = [[Some (JBool false)]].
Proof. vm_compute. auto. Qed.

(** * Heartbeats that are not numbers *)

Section NotANumber.
Import Redis Async Engine.

(** C5, amended.  When [typeof timeout] is not 'number' (undefined, null, a
    boolean), [ping] and [gc] return at once: nothing is sent to the
    store, nothing is logged and no task is left behind. *)
Theorem ping_gc_without_number srv ns clientId c :
  JS.typeof_number (timeout srv) = false →
  call (generateId srv) (ping srv ns clientId) c = c
  ∧ call (generateId srv) (gc srv ns) c = c.
Proof.
  intros H. unfold ping, gc. rewrite H. cbn [negb].
  destruct (timeout srv); try discriminate H; by rewrite !call_Done.
Qed.

End NotANumber.

Lemma ping_gc_without_number_witness :
  let c := (Sample.at_time 1700000000000 (Sample.sessions [("c", 5)]),
            Async.idle) in
  JS.typeof_number (timeout (Sample.server JS.Undefined)) = false
  ∧ Async.call Sample.ids (Engine.ping (Sample.server JS.Undefined) "" "c") c
    = c
  ∧ Async.call Sample.ids (Engine.gc (Sample.server JS.Undefined) "") c = c.
Proof.
  split; [reflexivity|].
  apply (ping_gc_without_number (Sample.server JS.Undefined) "" "c").
  reflexivity.
Defined.

(** C5 as stated fails for NaN, whose type is 'number': [ping] writes the
    current time as the score of "c". *)
Lemma ping_NaN_counterexample :
  let srv := Sample.server (JS.Num JS.NaN) in
  let w := Sample.at_time 1700000000000 (Sample.sessions [("c", 5)]) in
  let c := Async.serve Sample.ids (Engine.ping srv "" "c") [Async.quiet]
             (w, Async.idle) in
  Spec.score (Async.redis w) "" "c" = Some 5
  ∧ Spec.score (Async.redis c.1) "" "c" = Some 1700000000000.
Proof. vm_compute. auto. Qed.

(** * Keys *)

Lemma forward_reverse_ne (ns clientId channel : string) :
  ns +:+ "/clients/" +:+ clientId +:+ "/channels"
  ≠ ns +:+ "/channels" +:+ channel.
Proof. intros H. apply (inj (String.append ns)) in H. discriminate H. Qed.

Lemma reverse_forward_ne (ns clientId channel : string) :
  ns +:+ "/channels" +:+ channel
  ≠ ns +:+ "/clients/" +:+ clientId +:+ "/channels".
Proof. intros H. apply (inj (String.append ns)) in H. discriminate H. Qed.

(** * Containers that vanish when empty *)

Lemma as_set_put_set key m d :
  Redis.as_set (Redis.put_set key m d !! key) = Some m.
Proof.
  unfold Redis.put_set. case_decide; subst.
  - by rewrite lookup_delete_eq.
  - by rewrite lookup_insert_eq.
Qed.

Lemma lookup_put_set_ne key key' m d :
  key ≠ key' → Redis.put_set key m d !! key' = d !! key'.
Proof.
  intros. unfold Redis.put_set. case_decide.
  - by rewrite lookup_delete_ne.
  - by rewrite lookup_insert_ne.
Qed.

Lemma as_zset_put_zset key m d :
  Redis.as_zset (Redis.put_zset key m d !! key) = Some m.
Proof.
  unfold Redis.put_zset. case_decide; subst.
  - by rewrite lookup_delete_eq.
  - by rewrite lookup_insert_eq.
Qed.

Lemma lookup_put_zset_ne key key' m d :
  key ≠ key' → Redis.put_zset key m d !! key' = d !! key'.
Proof.
  intros. unfold Redis.put_zset. case_decide.
  - by rewrite lookup_delete_ne.
  - by rewrite lookup_insert_ne.
Qed.

(** * Subscriptions *)

Section Subscriptions.
Import Redis Async Engine.

Variable srv : FayeServer.
Variable ns : string.

Local Abbreviation gen := (generateId srv).
Local Abbreviation fwd c := (ns +:+ "/clients/" +:+ c +:+ "/channels").
Local Abbreviation rev ch := (ns +:+ "/channels" +:+ ch).

Lemma channels_of_as_set s clientId F :
  as_set (db s !! fwd clientId) = Some F → Spec.channels_of s ns clientId = F.
Proof.
  unfold Spec.channels_of. destruct (db s !! fwd clientId) as [[]|]; cbn;
    congruence.
Qed.

Lemma clients_of_as_set s channel R :
  as_set (db s !! rev channel) = Some R → Spec.clients_of s ns channel = R.
Proof.
  unfold Spec.clients_of. destruct (db s !! rev channel) as [[]|]; cbn;
    congruence.
Qed.

(** [SADD] on a key that holds a set, or nothing. *)
Lemma SADD_effect key member s M :
  as_set (db s !! key) = Some M →
  let sr := exec_command (SADD key member) s in
  sr.2 = Int (if decide (member ∈ M) then 0 else 1)
  ∧ as_set (db sr.1 !! key) = Some ({[member]} ∪ M)
  ∧ (∀ k, k ≠ key → db sr.1 !! k = db s !! k)
  ∧ pubsub sr.1 = pubsub s
  ∧ listeners sr.1 = listeners s.
Proof.
  intros HM. cbn zeta. cbn [exec_command]. rewrite HM.
  destruct (decide (member ∈ M)); cbn [fst snd db with_db pubsub listeners].
  - split; [done|]. split; [|done]. rewrite HM. f_equal. set_solver.
  - split; [done|]. split; [by rewrite lookup_insert_eq|].
    split; [|done]. intros k Hk. by rewrite lookup_insert_ne.
Qed.

(** [SREM] on a key that holds a set, or nothing. *)
Lemma SREM_effect key member s M :
  as_set (db s !! key) = Some M →
  let sr := exec_command (SREM key member) s in
  sr.2 = Int (if decide (member ∈ M) then 1 else 0)
  ∧ as_set (db sr.1 !! key) = Some (M ∖ {[member]})
  ∧ (∀ k, k ≠ key → db sr.1 !! k = db s !! k)
  ∧ pubsub sr.1 = pubsub s
  ∧ listeners sr.1 = listeners s.
Proof.
  intros HM. cbn zeta. cbn [exec_command]. rewrite HM.
  destruct (decide (member ∈ M)); cbn [fst snd db with_db pubsub listeners].
  - split; [done|]. split; [apply as_set_put_set|].
    split; [|done]. intros k Hk. by apply lookup_put_set_ne.
  - split; [done|]. split; [|done]. rewrite HM. f_equal. set_solver.
Qed.

(** What [subscribe] sends, says and leaves when nothing disturbs it. *)
Lemma subscribe_quiet clientId channel callback w p F R :
  as_set (db (redis w) !! fwd clientId) = Some F →
  as_set (db (redis w) !! rev channel) = Some R →
  ∃ s',
    serve gen (subscribe ns clientId channel callback) [quiet; quiet] (w, p) =
    call gen (invoke callback)
      ({| redis := s'; clock := clock w |},
       record_all
         ([Sent (Single (SADD (fwd clientId) channel))
                (Some (Int (if decide (channel ∈ F) then 0 else 1)))]
          ++ (if decide (channel ∈ F) then []
              else [Trigger "subscribe" [str clientId; str channel]])
          ++ [Sent (Single (SADD (rev channel) clientId))
                   (Some (Int (if decide (clientId ∈ R) then 0 else 1)));
              Debug "Subscribed client ? to channel ?"
                [str clientId; str channel]]) p)
    ∧ as_set (db s' !! fwd clientId) = Some ({[channel]} ∪ F)
    ∧ as_set (db s' !! rev channel) = Some ({[clientId]} ∪ R)
    ∧ Spec.untouched [fwd clientId; rev channel] (redis w) s'.
Proof.
  intros HF HR. unfold subscribe.
  rewrite serve_Await. cbn [quiet fault interfere]. cbn zeta. cbn [exec].
  destruct (SADD_effect (fwd clientId) channel (redis w) F HF)
    as (Hr1 & HF1 & Hk1 & Hp1 & Hl1).
  set (s1 := (exec_command (SADD (fwd clientId) channel) (redis w)).1) in *.
  rewrite Hr1. cbn [is_error is_int].
  assert (HR1 : as_set (db s1 !! rev channel) = Some R).
  { rewrite Hk1; [done | exact (reverse_forward_ne _ _ _)]. }
  destruct (SADD_effect (rev channel) clientId s1 R HR1)
    as (Hr2 & HR2 & Hk2 & Hp2 & Hl2).
  set (s2 := (exec_command (SADD (rev channel) clientId) s1).1) in *.
  exists s2.
  assert (Hrest : ∀ l p0,
    serve gen
      (Await (Single (SADD (rev channel) clientId))
         (λ _, Emit (Debug "Subscribed client ? to channel ?"
                       [str clientId; str channel]) (invoke callback))
         (Emit (ConsoleError "Error subscribing:") (invoke callback)))
      [quiet] ({| redis := s1; clock := clock w |}, record_all l p0)
    = call gen (invoke callback)
        ({| redis := s2; clock := clock w |},
         record_all
           (l ++ [Sent (Single (SADD (rev channel) clientId))
                       (Some (Int (if decide (clientId ∈ R) then 0 else 1)));
                  Debug "Subscribed client ? to channel ?"
                    [str clientId; str channel]]) p0)).
  { intros l p0. rewrite serve_Await. cbn [quiet fault interfere]. cbn zeta.
    cbn [exec redis clock]. fold s2. rewrite Hr2. cbn [is_error].
    rewrite serve_Emit, serve_nil.
    by rewrite !record_one, !record_all_join, <- ?app_assoc. }
  split.
  - destruct (decide (channel ∈ F)).
    + change (0 =? 1) with false. cbv iota.
      rewrite record_one. apply Hrest.
    + change (1 =? 1) with true. cbv iota.
      rewrite serve_Emit, !record_one, record_all_join. apply Hrest.
  - split; [|split; [done|]].
    + rewrite Hk2; [done | exact (forward_reverse_ne _ _ _)].
    + split; [|split; congruence]. intros k Hk.
      rewrite Hk2, Hk1; [done | |]; intros ->; apply Hk; set_solver.
Qed.

(** What [unsubscribe] sends, says and leaves when nothing disturbs it. *)
Lemma unsubscribe_quiet clientId channel callback w p F R :
  as_set (db (redis w) !! fwd clientId) = Some F →
  as_set (db (redis w) !! rev channel) = Some R →
  ∃ s',
    serve gen (unsubscribe ns clientId channel callback) [quiet; quiet] (w, p) =
    call gen (invoke callback)
      ({| redis := s'; clock := clock w |},
       record_all
         ([Sent (Single (SREM (fwd clientId) channel))
                (Some (Int (if decide (channel ∈ F) then 1 else 0)))]
          ++ (if decide (channel ∈ F)
              then [Trigger "unsubscribe" [str clientId; str channel]]
              else [])
          ++ [Sent (Single (SREM (rev channel) clientId))
                   (Some (Int (if decide (clientId ∈ R) then 1 else 0)));
              Debug "Unsubscribed client ? from channel ?"
                [str clientId; str channel]]) p)
    ∧ as_set (db s' !! fwd clientId) = Some (F ∖ {[channel]})
    ∧ as_set (db s' !! rev channel) = Some (R ∖ {[clientId]})
    ∧ Spec.untouched [fwd clientId; rev channel] (redis w) s'.
Proof.
  intros HF HR. unfold unsubscribe.
  rewrite serve_Await. cbn [quiet fault interfere]. cbn zeta. cbn [exec].
  destruct (SREM_effect (fwd clientId) channel (redis w) F HF)
    as (Hr1 & HF1 & Hk1 & Hp1 & Hl1).
  set (s1 := (exec_command (SREM (fwd clientId) channel) (redis w)).1) in *.
  rewrite Hr1. cbn [is_error is_int].
  assert (HR1 : as_set (db s1 !! rev channel) = Some R).
  { rewrite Hk1; [done | exact (reverse_forward_ne _ _ _)]. }
  destruct (SREM_effect (rev channel) clientId s1 R HR1)
    as (Hr2 & HR2 & Hk2 & Hp2 & Hl2).
  set (s2 := (exec_command (SREM (rev channel) clientId) s1).1) in *.
  exists s2.
  assert (Hrest : ∀ l p0,
    serve gen
      (Await (Single (SREM (rev channel) clientId))
         (λ _, Emit (Debug "Unsubscribed client ? from channel ?"
                       [str clientId; str channel]) (invoke callback))
         (Emit (ConsoleError "Error unsubscribing:") (invoke callback)))
      [quiet] ({| redis := s1; clock := clock w |}, record_all l p0)
    = call gen (invoke callback)
        ({| redis := s2; clock := clock w |},
         record_all
           (l ++ [Sent (Single (SREM (rev channel) clientId))
                       (Some (Int (if decide (clientId ∈ R) then 1 else 0)));
                  Debug "Unsubscribed client ? from channel ?"
                    [str clientId; str channel]]) p0)).
  { intros l p0. rewrite serve_Await. cbn [quiet fault interfere]. cbn zeta.
    cbn [exec redis clock]. fold s2. rewrite Hr2. cbn [is_error].
    rewrite serve_Emit, serve_nil.
    by rewrite !record_one, !record_all_join, <- ?app_assoc. }
  split.
  - destruct (decide (channel ∈ F)).
    + change (1 =? 1) with true. cbv iota.
      rewrite serve_Emit, !record_one, record_all_join. apply Hrest.
    + change (0 =? 1) with false. cbv iota.
      rewrite record_one. apply Hrest.
  - split; [|split; [done|]].
    + rewrite Hk2; [done | exact (forward_reverse_ne _ _ _)].
    + split; [|split; congruence]. intros k Hk.
      rewrite Hk2, Hk1; [done | |]; intros ->; apply Hk; set_solver.
Qed.

(** C7.  With nothing between or across its two requests, [subscribe]
    adds the pair to both indexes and triggers "subscribe" exactly when
    the channel was not yet among the channels of the client;
    [unsubscribe] removes the pair from both and triggers "unsubscribe"
    exactly when the channel was among them.  Both run their callback and
    log no error, and touch no other key.  So two calls of [subscribe] in
    a row trigger at most once, the second never, and an [unsubscribe] of
    a pair that is not subscribed triggers nothing. *)
Theorem subscribe_twice_unsubscribe_never clientId channel callback w p :
  Spec.indexable (redis w) ns clientId channel →
  let F := Spec.channels_of (redis w) ns clientId in
  let R := Spec.clients_of (redis w) ns channel in
  let pair := [str clientId; str channel] in
  (∃ s',
     serve gen (subscribe ns clientId channel callback) [quiet; quiet] (w, p)
     = call gen (invoke callback)
         ({| redis := s'; clock := clock w |},
          record_all
            ([Sent (Single (SADD (fwd clientId) channel))
                   (Some (Int (if decide (channel ∈ F) then 0 else 1)))]
             ++ (if decide (channel ∈ F) then []
                 else [Trigger "subscribe" pair])
             ++ [Sent (Single (SADD (rev channel) clientId))
                      (Some (Int (if decide (clientId ∈ R) then 0 else 1)));
                 Debug "Subscribed client ? to channel ?" pair]) p)
     ∧ Spec.channels_of s' ns clientId = {[channel]} ∪ F
     ∧ Spec.clients_of s' ns channel = {[clientId]} ∪ R
     ∧ Spec.untouched [fwd clientId; rev channel] (redis w) s')
  ∧ (∃ s',
       serve gen (unsubscribe ns clientId channel callback) [quiet; quiet]
             (w, p)
       = call gen (invoke callback)
           ({| redis := s'; clock := clock w |},
            record_all
              ([Sent (Single (SREM (fwd clientId) channel))
                     (Some (Int (if decide (channel ∈ F) then 1 else 0)))]
               ++ (if decide (channel ∈ F)
                   then [Trigger "unsubscribe" pair]
                   else [])
               ++ [Sent (Single (SREM (rev channel) clientId))
                        (Some (Int (if decide (clientId ∈ R) then 1 else 0)));
                   Debug "Unsubscribed client ? from channel ?" pair]) p)
       ∧ Spec.channels_of s' ns clientId = F ∖ {[channel]}
       ∧ Spec.clients_of s' ns channel = R ∖ {[clientId]}
       ∧ Spec.untouched [fwd clientId; rev channel] (redis w) s')
  ∧ (let c1 := serve gen (subscribe ns clientId channel
                            (Some (Spec.completed "first")))
                 [quiet; quiet] (w, p) in
     let c2 := serve gen (subscribe ns clientId channel
                            (Some (Spec.completed "second")))
                 [quiet; quiet] c1 in
     triggered "subscribe" (log c1.2)
     = triggered "subscribe" (log p)
       ++ (if decide (channel ∈ F) then [] else [pair])
     ∧ triggered "subscribe" (log c2.2) = triggered "subscribe" (log c1.2)
     ∧ Spec.calls "first" (log c2.2) = Spec.calls "first" (log p) ++ [[]]
     ∧ Spec.calls "second" (log c2.2) = Spec.calls "second" (log p) ++ [[]]
     ∧ Spec.errors (log c2.2) = Spec.errors (log p)
     ∧ tasks c2.2 = tasks p
     ∧ Spec.channels_of (redis c2.1) ns clientId = {[channel]} ∪ F
     ∧ Spec.clients_of (redis c2.1) ns channel = {[clientId]} ∪ R)
  ∧ (channel ∉ F →
     let c := serve gen (unsubscribe ns clientId channel
                           (Some (Spec.completed "done")))
                [quiet; quiet] (w, p) in
     triggered "unsubscribe" (log c.2) = triggered "unsubscribe" (log p)
     ∧ Spec.calls "done" (log c.2) = Spec.calls "done" (log p) ++ [[]]
     ∧ Spec.errors (log c.2) = Spec.errors (log p)
     ∧ tasks c.2 = tasks p
     ∧ Spec.channels_of (redis c.1) ns clientId = F).
Proof.
  intros [[F HF] [R HR]]. cbn zeta.
  rewrite (channels_of_as_set _ _ _ HF), (clients_of_as_set _ _ _ HR).
  split; [|split; [|split]].
  - destruct (subscribe_quiet clientId channel callback w p F R HF HR)
      as (s' & Hs & HF' & HR' & Hu).
    exists s'. split; [exact Hs|].
    by rewrite (channels_of_as_set _ _ _ HF'), (clients_of_as_set _ _ _ HR').
  - destruct (unsubscribe_quiet clientId channel callback w p F R HF HR)
      as (s' & Hs & HF' & HR' & Hu).
    exists s'. split; [exact Hs|].
    by rewrite (channels_of_as_set _ _ _ HF'), (clients_of_as_set _ _ _ HR').
  - destruct (subscribe_quiet clientId channel (Some (Spec.completed "first"))
                w p F R HF HR) as (s1 & -> & HF1 & HR1 & _).
    unfold invoke, Spec.completed. rewrite call_Emit, call_Done.
    match goal with
    | |- context [serve _ (subscribe _ _ _ ?cb) _ (?W, ?P)] =>
        set (W0 := W); set (P0 := P)
    end.
    pose proof (subscribe_quiet clientId channel
                  (Some (Emit (Called "second" []) Done))
                  W0 P0 ({[channel]} ∪ F) ({[clientId]} ∪ R) HF1 HR1) as HH.
    destruct HH as (s2 & -> & HF2 & HR2 & _).
    unfold invoke, Spec.completed. rewrite call_Emit, call_Done.
    subst W0 P0. cbn [fst snd redis log tasks record record_all].
    rewrite (channels_of_as_set _ _ _ HF2), (clients_of_as_set _ _ _ HR2).
    rewrite !(decide_True (P := channel ∈ {[channel]} ∪ F))
      by (apply elem_of_union_l, elem_of_singleton_2; reflexivity).
    rewrite !(decide_True (P := clientId ∈ {[clientId]} ∪ R))
      by (apply elem_of_union_l, elem_of_singleton_2; reflexivity).
    destruct (decide (channel ∈ F)), (decide (clientId ∈ R));
      rewrite !triggered_app, !calls_app, !errors_app; cbn;
      rewrite ?app_nil_r;
      (repeat split; first [done | set_solver]).
  - intros Hnot.
    destruct (unsubscribe_quiet clientId channel (Some (Spec.completed "done"))
                w p F R HF HR) as (s1 & -> & HF1 & _ & _).
    unfold invoke, Spec.completed. rewrite call_Emit, call_Done.
    cbn [fst snd redis log tasks record record_all].
    rewrite (channels_of_as_set _ _ _ HF1).
    rewrite !(decide_False (P := channel ∈ F)) by done.
    destruct (decide (clientId ∈ R));
      rewrite !triggered_app, !calls_app, !errors_app; cbn;
      rewrite ?app_nil_r;
      (repeat split; first [done | set_solver]).
Qed.

End Subscriptions.

(** A first [subscribe] of "c" to "/a" triggers, a second does not; and
    where the client already lists "/a", though "/a" does not list the
    client, [subscribe] triggers nothing. *)
Lemma subscribe_twice_unsubscribe_never_witness :
  let w := Sample.at_time 1700000000000
             (Sample.sessions [("c", 1700000000000)]) in
  let c1 := Async.serve Sample.ids
              (Engine.subscribe "" "c" "/a" (Some (Spec.completed "first")))
              [Async.quiet; Async.quiet] (w, Async.idle) in
  let c2 := Async.serve Sample.ids
              (Engine.subscribe "" "c" "/a" (Some (Spec.completed "second")))
              [Async.quiet; Async.quiet] c1 in
  let h := Sample.at_time 1700000000000 Sample.half_subscribed in
  let d := Async.serve Sample.ids
             (Engine.subscribe "" "c" "/a" (Some (Spec.completed "first")))
             [Async.quiet; Async.quiet] (h, Async.idle) in
  Spec.indexable (Async.redis w) "" "c" "/a"
  ∧ Async.triggered "subscribe" (Async.log c1.2)
    = [[Engine.str "c"; Engine.str "/a"]]
  ∧ Async.triggered "subscribe" (Async.log c2.2)
    = [[Engine.str "c"; Engine.str "/a"]]
  ∧ Spec.indexable (Async.redis h) "" "c" "/a"
  ∧ Async.triggered "subscribe" (Async.log d.2) = [].
Proof.
  assert (H1 : Spec.indexable
                 (Sample.sessions [("c", 1700000000000)]) "" "c" "/a")
    by (split; eexists; reflexivity).
  assert (H2 : "/a" ∉ Spec.channels_of
                 (Sample.sessions [("c", 1700000000000)]) "" "c")
    by (replace (Spec.channels_of _ "" "c") with (∅ : gset string)
          by reflexivity; apply not_elem_of_empty).
  assert (H3 : Spec.indexable Sample.half_subscribed "" "c" "/a")
    by (split; eexists; reflexivity).
  assert (H4 : "/a" ∈ Spec.channels_of Sample.half_subscribed "" "c")
    by (replace (Spec.channels_of _ "" "c") with ({[ "/a" ]} : gset string)
          by reflexivity; apply elem_of_singleton_2; reflexivity).
  pose proof (proj1 (proj2 (proj2
    (subscribe_twice_unsubscribe_never Sample.usual "" "c" "/a" None
       (Sample.at_time 1700000000000
          (Sample.sessions [("c", 1700000000000)])) Async.idle H1))))
    as (E1 & E2 & _).
  pose proof (proj1 (proj2 (proj2
    (subscribe_twice_unsubscribe_never Sample.usual "" "c" "/a" None
       (Sample.at_time 1700000000000 Sample.half_subscribed)
       Async.idle H3))))
    as (E3 & _).
  cbn [Sample.at_time Async.redis] in E1, E3.
  rewrite (decide_False (P := "/a" ∈ _)) in E1 by exact H2.
  rewrite (decide_True (P := "/a" ∈ _)) in E3 by exact H4.
  split; [exact H1|]. split; [exact E1|].
  split; [exact (eq_trans E2 E1)|]. split; [exact H3 | exact E3].
Defined.

Lemma clients_forward_ne (ns clientId : string) :
  ns +:+ "/clients" ≠ ns +:+ "/clients/" +:+ clientId +:+ "/channels".
Proof. intros H. apply (inj (String.append ns)) in H. discriminate H. Qed.

Lemma clients_reverse_ne (ns channel : string) :
  ns +:+ "/clients" ≠ ns +:+ "/channels" +:+ channel.
Proof. intros H. apply (inj (String.append ns)) in H. discriminate H. Qed.

(** * Destruction of a client *)

Section Destroy.
Import Redis Async Engine.

Variable srv : FayeServer.
Variable ns : string.

Local Abbreviation gen := (generateId srv).
Local Abbreviation fwd c := (ns +:+ "/clients/" +:+ c +:+ "/channels").
Local Abbreviation rev ch := (ns +:+ "/channels" +:+ ch).

(** Removing a channel from the forward index answers 1 exactly for a
    member, and leaves the other members. *)
Lemma exec_SREM_forward clientId channel s :
  let sr := exec_command (SREM (fwd clientId) channel) s in
  is_int sr.2 1 = bool_decide (channel ∈ Spec.channels_of s ns clientId)
  ∧ Spec.channels_of sr.1 ns clientId
    = Spec.channels_of s ns clientId ∖ {[channel]}.
Proof.
  cbn zeta. unfold Spec.channels_of. cbn [exec_command].
  assert (Hset : ∀ m,
    as_set (db s !! fwd clientId) = Some m →
    (match db s !! fwd clientId with Some (SSet m0) => m0 | _ => ∅ end) = m).
  { intros m. destruct (db s !! fwd clientId) as [[]|]; naive_solver. }
  destruct (as_set (db s !! fwd clientId)) as [m|] eqn:E; cbn [fst snd].
  - rewrite (Hset m eq_refl).
    destruct (decide (channel ∈ m)) as [Hin|Hin]; cbn [fst snd is_int].
    + rewrite bool_decide_eq_true_2 by done. split; [done|].
      cbn [db with_db]. unfold put_set. case_decide as Hm.
      * rewrite lookup_delete_eq. by rewrite Hm.
      * by rewrite lookup_insert_eq.
    + rewrite bool_decide_eq_false_2 by done. split; [done|].
      rewrite (Hset m eq_refl). set_solver.
  - destruct (db s !! fwd clientId) as [[]|]; try done;
      cbn [is_int WRONGTYPE]; rewrite bool_decide_eq_false_2 by set_solver;
      (split; [done | set_solver]).
Qed.

Lemma exec_SREM_reverse clientId channel member s :
  Spec.channels_of (exec_command (SREM (rev channel) member) s).1 ns clientId
  = Spec.channels_of s ns clientId.
Proof.
  unfold Spec.channels_of. cbn [exec_command].
  destruct (as_set (db s !! rev channel)) as [m|]; [|done].
  destruct (decide (member ∈ m)); [|done].
  cbn [fst db with_db].
  by rewrite lookup_put_set_ne by exact (reverse_forward_ne _ _ _).
Qed.

Lemma exec_ZADD_forward clientId NX score member s :
  Spec.channels_of
    (exec_command (ZADD (ns +:+ "/clients") NX score member) s).1 ns clientId
  = Spec.channels_of s ns clientId.
Proof.
  unfold Spec.channels_of. cbn [exec_command].
  destruct (as_zset (db s !! (ns +:+ "/clients"))) as [m|]; [|done].
  destruct (m !! member), NX; cbn [fst db with_db]; try done;
    by rewrite lookup_insert_ne by exact (clients_forward_ne _ _).
Qed.

Lemma flat_map_agree {A B} (f g : A → list B) (l : list A) :
  (∀ x, x ∈ l → f x = g x) → flat_map f l = flat_map g l.
Proof.
  induction l as [|a l IH]; intros H; cbn [flat_map]; [done|].
  rewrite H by apply list_elem_of_here.
  rewrite IH; [done|]. intros x Hx. apply H. by apply list_elem_of_further.
Qed.

Lemma exec_MultiExec cs s :
  exec (MultiExec cs) s
  = ((exec_multi cs s).1,
     if existsb is_error (exec_multi cs s).2 then Error "MultiErrorReply"
     else Results (exec_multi cs s).2).
Proof. cbn [exec]. by destruct (exec_multi cs s). Qed.

Lemma exec_multi_cons c cs s :
  exec_multi (c :: cs) s =
  ((exec_multi cs (exec_command c s).1).1,
   (exec_command c s).2 :: (exec_multi cs (exec_command c s).1).2).
Proof.
  cbn [exec_multi]. destruct (exec_command c s) as [s1 r].
  cbn [fst snd]. by destruct (exec_multi cs s1).
Qed.

(** ** Batches that the store accepts *)

Lemma kind_kept_refl e : Spec.kind_kept e e.
Proof. by destruct e as [[]|]. Qed.

Lemma kind_kept_set e e' :
  Spec.kind_kept e e' → is_Some (as_set e) → is_Some (as_set e').
Proof. destruct e as [[]|], e' as [[]|]; cbn; intros H [x Hx]; by eauto. Qed.

Lemma kind_kept_zset e e' :
  Spec.kind_kept e e' → is_Some (as_zset e) → is_Some (as_zset e').
Proof. destruct e as [[]|], e' as [[]|]; cbn; intros H [x Hx]; by eauto. Qed.

Lemma removal_kind c s k :
  Spec.fits c s → Spec.kind_kept (db s !! k) (db (exec_command c s).1 !! k).
Proof.
  destruct c; cbn [Spec.fits]; try done; intros Hfit; cbn [exec_command].
  - destruct (as_zset (db s !! key)) as [m|] eqn:E; [|apply kind_kept_refl].
    destruct (m !! member) eqn:Em; [|apply kind_kept_refl].
    cbn [fst db with_db]. unfold put_zset.
    destruct (decide (k = key)) as [->|Hk].
    + case_decide; [by rewrite lookup_delete_eq|].
      rewrite lookup_insert_eq.
      destruct (db s !! key) as [[]|]; try done.
      cbn in E. injection E as <-. by rewrite lookup_empty in Em.
    + case_decide; [rewrite lookup_delete_ne by done|
                    rewrite lookup_insert_ne by done]; apply kind_kept_refl.
  - destruct (as_set (db s !! key)) as [m|] eqn:E; [|apply kind_kept_refl].
    destruct (decide (member ∈ m)) as [Hin|]; [|apply kind_kept_refl].
    cbn [fst db with_db]. unfold put_set.
    destruct (decide (k = key)) as [->|Hk].
    + case_decide; [by rewrite lookup_delete_eq|].
      rewrite lookup_insert_eq.
      destruct (db s !! key) as [[]|]; try done.
      cbn in E. injection E as <-. by apply not_elem_of_empty in Hin.
    + case_decide; [rewrite lookup_delete_ne by done|
                    rewrite lookup_insert_ne by done]; apply kind_kept_refl.
  - destruct (db s !! key) eqn:E; [|apply kind_kept_refl].
    cbn [fst db with_db].
    destruct (decide (k = key)) as [->|Hk].
    + by rewrite lookup_delete_eq.
    + rewrite lookup_delete_ne by done. apply kind_kept_refl.
  - cbn [fst db]. apply kind_kept_refl.
Qed.

Lemma fits_kept c c' s :
  Spec.fits c s → Spec.fits c' s → Spec.fits c' (exec_command c s).1.
Proof.
  intros Hc. destruct c'; cbn [Spec.fits]; try done.
  - apply kind_kept_zset. by apply removal_kind.
  - apply kind_kept_set. by apply removal_kind.
Qed.

Lemma fits_answered c s : Spec.fits c s → is_error (exec_command c s).2 = false.
Proof.
  destruct c; cbn [Spec.fits]; try done; cbn [exec_command].
  - intros [m ->]. by destruct (m !! member).
  - intros [m ->]. by destruct (decide (member ∈ m)).
  - intros _. by destruct (db s !! key).
Qed.

Lemma exec_multi_fits cs :
  ∀ s, Forall (λ c, Spec.fits c s) cs →
       existsb is_error (exec_multi cs s).2 = false.
Proof.
  induction cs as [|c cs IH]; intros s H; [done|].
  apply Forall_cons in H as [Hc Hcs].
  rewrite exec_multi_cons. cbn [snd existsb].
  rewrite (fits_answered c s Hc). cbn [orb]. apply IH.
  eapply Forall_impl; [exact Hcs|]. intros c' Hc'. by apply fits_kept.
Qed.

Lemma destroy_batch_commits clientId channels s :
  is_Some (as_zset (db s !! (ns +:+ "/clients"))) →
  is_Some (as_set (db s !! fwd clientId)) →
  (∀ ch, ch ∈ channels → is_Some (as_set (db s !! rev ch))) →
  is_error (exec (MultiExec (destroy_batch ns clientId channels)) s).2 = false.
Proof.
  intros [m Hm] HF HR. rewrite exec_MultiExec. cbn [snd].
  replace (existsb is_error _) with false; [done|]. symmetry.
  unfold destroy_batch. cbn [app]. rewrite exec_multi_cons.
  cbn [snd existsb].
  set (s1 := (exec_command (ZADD (ns +:+ "/clients") false 0 clientId) s).1).
  assert (Hother : ∀ k, k ≠ ns +:+ "/clients" → db s1 !! k = db s !! k).
  { intros k Hk. unfold s1. cbn [exec_command]. rewrite Hm.
    destruct (m !! clientId); cbn [fst db with_db];
      by rewrite lookup_insert_ne. }
  assert (Hkey : is_Some (as_zset (db s1 !! (ns +:+ "/clients")))).
  { unfold s1. cbn [exec_command]. rewrite Hm.
    destruct (m !! clientId); cbn [fst db with_db];
      rewrite lookup_insert_eq; by eexists. }
  replace (is_error (exec_command (ZADD (ns +:+ "/clients") false 0 clientId) s).2) with false.
  2: { cbn [exec_command]. rewrite Hm. by destruct (m !! clientId). }
  cbn [orb]. apply exec_multi_fits.
  apply Forall_app. split.
  - apply Forall_forall. intros c Hc.
    apply list_elem_of_In, in_flat_map in Hc as (ch & Hch & Hc).
    apply list_elem_of_In in Hch.
    cbn [In] in Hc. destruct Hc as [<-|[<-|[]]]; cbn [Spec.fits].
    + rewrite Hother; [done|]. intros E. symmetry in E.
      by apply clients_forward_ne in E.
    + rewrite Hother; [by apply HR|]. intros E. symmetry in E.
      by apply clients_reverse_ne in E.
  - repeat constructor. exact Hkey.
Qed.
Lemma call_record_all l k w p :
  call gen (foldr Emit k l) (w, p) = call gen k (w, record_all l p).
Proof.
  revert p. induction l as [|e l IH]; intros p; cbn [foldr].
  - by rewrite record_all_nil.
  - by rewrite call_Emit, IH, record_all_cons.
Qed.

Lemma left_channel_other clientId F channel channel' :
  channel' ≠ channel →
  Spec.left_channel clientId (F ∖ {[channel]}) channel'
  = Spec.left_channel clientId F channel'.
Proof.
  intros. unfold Spec.left_channel.
  destruct (decide (channel' ∈ F)).
  - by rewrite decide_True by set_solver.
  - by rewrite decide_False by set_solver.
Qed.

(** The loop over the channels reads, in the results of the batch, the
    answers of the removals from the forward index. *)
Lemma unsubscribed_batch clientId channels :
  ∀ s tail pre i k w p,
    NoDup channels →
    length pre = (2 * i + 1)%nat →
    call gen
      (unsubscribed clientId channels i
         (pre ++ (exec_multi
                    (flat_map (λ channel,
                       [SREM (fwd clientId) channel;
                        SREM (rev channel) clientId]) channels ++ tail) s).2)
         k) (w, p)
    = call gen k
        (w, record_all
              (flat_map (Spec.left_channel clientId
                           (Spec.channels_of s ns clientId)) channels)
              p).
Proof.
  induction channels as [|channel rest IH]; intros s tail pre i k w p Hnd Hlen.
  - cbn [unsubscribed flat_map]. by rewrite record_all_nil.
  - apply NoDup_cons in Hnd as [Hnot Hnd].
    cbn [flat_map]. rewrite <- !app_assoc. cbn [app].
    rewrite !exec_multi_cons. cbn [snd].
    destruct (exec_SREM_forward clientId channel s) as [Hr HF].
    cbn zeta in Hr, HF.
    set (s1 := (exec_command (SREM (fwd clientId) channel) s).1) in *.
    set (r1 := (exec_command (SREM (fwd clientId) channel) s).2) in *.
    set (s2 := (exec_command (SREM (rev channel) clientId) s1).1).
    set (r2 := (exec_command (SREM (rev channel) clientId) s1).2).
    cbn [unsubscribed].
    rewrite lookup_app_r by lia.
    replace (2 * i + 1 - length pre)%nat with 0%nat by lia.
    cbn [lookup list_lookup].
    assert (Hnext : ∀ p',
      call gen
        (unsubscribed clientId rest (S i)
           (pre ++ r1 :: r2 ::
              (exec_multi
                 (flat_map (λ channel0,
                    [SREM (fwd clientId) channel0;
                     SREM (rev channel0) clientId]) rest ++ tail) s2).2) k)
        (w, p')
      = call gen k
          (w, record_all
                (flat_map (Spec.left_channel clientId
                             (Spec.channels_of s ns clientId)) rest) p')).
    { intros p'.
      replace (pre ++ r1 :: r2 ::
                 (exec_multi
                    (flat_map (λ channel0,
                       [SREM (fwd clientId) channel0;
                        SREM (rev channel0) clientId]) rest ++ tail) s2).2)
        with ((pre ++ [r1; r2]) ++
                 (exec_multi
                    (flat_map (λ channel0,
                       [SREM (fwd clientId) channel0;
                        SREM (rev channel0) clientId]) rest ++ tail) s2).2)
        by (by rewrite <- app_assoc).
      rewrite IH; [|done|rewrite length_app; cbn; lia].
      do 3 f_equal. unfold s2. rewrite exec_SREM_reverse, HF.
      apply flat_map_agree. intros channel' Hin.
      apply left_channel_other. by intros ->. }
    rewrite Hr. rewrite record_all_app. unfold Spec.left_channel at 2.
    destruct (decide (channel ∈ Spec.channels_of s ns clientId)).
    + rewrite bool_decide_eq_true_2 by done.
      rewrite !call_Emit, Hnext. by rewrite !record_all_cons, record_all_nil.
    + rewrite bool_decide_eq_false_2 by done.
      by rewrite Hnext, record_all_nil.
Qed.

Lemma left_channels_unsubscribe clientId F channels :
  triggered "unsubscribe" (flat_map (Spec.left_channel clientId F) channels)
  = map (λ channel, [str clientId; str channel])
        (filter (λ channel, channel ∈ F) channels).
Proof.
  induction channels as [|channel rest IH]; [done|].
  cbn [flat_map]. rewrite triggered_app, IH, filter_cons.
  unfold Spec.left_channel at 1. by destruct (decide (channel ∈ F)).
Qed.

Lemma left_channels_others clientId F channels :
  triggered "disconnect" (flat_map (Spec.left_channel clientId F) channels) = []
  ∧ Spec.calls "destroyed"
      (flat_map (Spec.left_channel clientId F) channels) = []
  ∧ Spec.errors (flat_map (Spec.left_channel clientId F) channels) = [].
Proof.
  induction channels as [|channel rest (IH1 & IH2 & IH3)]; [done|].
  cbn [flat_map]. rewrite triggered_app, calls_app, errors_app, IH1, IH2, IH3.
  unfold Spec.left_channel. by destruct (decide (channel ∈ F)).
Qed.

(** [destroyClient], round trip by round trip. *)
Lemma destroyClient_serve clientId callback w p t1 t2 :
  let w1 := interfere t1 w in
  let w2 := interfere t2 w1 in
  let read := Single (SMEMBERS (fwd clientId)) in
  let failed := ConsoleError "Error destroying client:" in
  serve gen (destroyClient ns clientId callback) [t1; t2] (w, p) =
  if fault t1
  then step gen (length (tasks p)) t2
         (call gen (invoke callback)
            (w1, record_all [Sent read None; failed] p))
  else
    match as_set (db (redis w1) !! fwd clientId) with
    | None =>
        step gen (length (tasks p)) t2
          (call gen (invoke callback)
             (w1, record_all [Sent read (Some WRONGTYPE); failed] p))
    | Some F1 =>
        let channels := elements F1 in
        let batch := MultiExec (destroy_batch ns clientId channels) in
        let answer := Sent read (Some (Array channels)) in
        if fault t2
        then call gen (invoke callback)
               (w2, record_all [answer; Sent batch None; failed] p)
        else
          let sr := exec batch (redis w2) in
          if is_error sr.2
          then call gen (invoke callback)
                 ({| redis := sr.1; clock := clock w2 |},
                  record_all [answer; Sent batch (Some sr.2); failed] p)
          else
            call gen (invoke callback)
              ({| redis := sr.1; clock := clock w2 |},
               record_all
                 ([answer; Sent batch (Some sr.2)]
                  ++ flat_map (Spec.left_channel clientId
                                 (Spec.channels_of (redis w2) ns clientId))
                              channels
                  ++ [Debug "Destroyed client ?" [str clientId];
                      Trigger "disconnect" [str clientId]])
                 p)
    end.
Proof.
  cbn zeta. unfold destroyClient.
  rewrite serve_Await. cbn zeta.
  destruct (fault t1).
  { unfold serve. rewrite call_Emit, !record_all_cons, record_all_nil.
    by cbn [map run snd record tasks]. }
  change (exec (Single ?c) ?s) with (exec_command c s). cbn [exec_command].
  destruct (as_set (db (redis (interfere t1 w)) !! fwd clientId))
    as [F1|] eqn:E; cbn [fst snd is_error WRONGTYPE].
  2: { unfold serve. rewrite call_Emit, !record_all_cons, record_all_nil.
       cbn [map run snd record tasks]. by rewrite world_eta. }
  rewrite world_eta. unfold destroy_commit. cbn [strings].
  rewrite serve_Await. cbn zeta.
  destruct (fault t2).
  { by rewrite serve_nil, call_Emit, !record_all_cons, record_all_nil. }
  rewrite !exec_MultiExec. cbn [fst snd].
  destruct (existsb is_error _) eqn:Herr; cbn [is_error].
  { by rewrite serve_nil, call_Emit, !record_all_cons, record_all_nil. }
  pose proof (exec_multi_cons (ZADD (ns +:+ "/clients") false 0 clientId)
    (flat_map (λ channel, [SREM (fwd clientId) channel;
                           SREM (rev channel) clientId]) (elements F1)
     ++ [DEL (ns +:+ "/clients/" +:+ clientId +:+ "/messages");
         ZREM (ns +:+ "/clients") clientId;
         PUBLISH (_closeChannel ns) clientId])
    (redis (interfere t2 (interfere t1 w)))) as Hb.
  change (ZADD (ns +:+ "/clients") false 0 clientId :: _ ++ _)
    with (destroy_batch ns clientId (elements F1)) in Hb.
  rewrite serve_nil.
  set (s1 := (exec_command (ZADD (ns +:+ "/clients") false 0 clientId)
                (redis (interfere t2 (interfere t1 w)))).1) in Hb.
  set (r1 := (exec_command (ZADD (ns +:+ "/clients") false 0 clientId)
                (redis (interfere t2 (interfere t1 w)))).2) in Hb.
  set (sr := exec_multi (destroy_batch ns clientId (elements F1))
               (redis (interfere t2 (interfere t1 w)))) in *.
  replace (unsubscribed clientId (elements F1) 0 sr.2)
    with (unsubscribed clientId (elements F1) 0 ([r1] ++ (exec_multi
            (flat_map (λ channel, [SREM (fwd clientId) channel;
                                   SREM (rev channel) clientId]) (elements F1)
             ++ [DEL (ns +:+ "/clients/" +:+ clientId +:+ "/messages");
                 ZREM (ns +:+ "/clients") clientId;
                 PUBLISH (_closeChannel ns) clientId]) s1).2))
    by (by rewrite Hb).
  rewrite (unsubscribed_batch clientId (elements F1) s1 _ [r1] 0)
    by (done || apply NoDup_elements).
  rewrite !call_Emit.
  replace (Spec.channels_of s1 ns clientId)
    with (Spec.channels_of (redis (interfere t2 (interfere t1 w))) ns clientId)
    by (symmetry; apply exec_ZADD_forward).
  do 2 f_equal. unfold record_all, record. cbn. f_equal.
  by rewrite <- !app_assoc.
Qed.

Lemma left_channels_filter clientId F channels :
  flat_map (Spec.left_channel clientId F) channels
  = flat_map (λ channel,
               [Trigger "unsubscribe" [str clientId; str channel];
                Debug "Unsubscribed client ? from channel ?"
                  [str clientId; str channel]])
      (filter (λ channel, channel ∈ F) channels).
Proof.
  induction channels as [|channel rest IH]; [done|].
  cbn [flat_map]. rewrite filter_cons, IH. unfold Spec.left_channel at 1.
  by destruct (decide (channel ∈ F)).
Qed.

(** C3, amended.  With no storage failure [destroyClient] reads the
    channels of the client, commits its batch, and then triggers
    "unsubscribe" for exactly those of the channels it read whose removal
    from the client's own channel set (the forward index, the first of the
    two removals per channel in the batch) changed state, in the order of
    the read; it triggers "disconnect" last and then runs its callback.
    When a storage operation fails (the read or the batch is rejected, as
    the batch is when one of its commands was refused) it triggers
    nothing, logs the error, and runs its callback all the same.  The
    batch is not rejected when the session set, the channel set of the
    client and the client sets of the channels are of their types. *)
Theorem destroyClient_notifications clientId callback w p t1 t2 :
  let w1 := interfere t1 w in
  let w2 := interfere t2 w1 in
  let read := Sent (Single (SMEMBERS (fwd clientId))) in
  let failed := ConsoleError "Error destroying client:" in
  (fault t1 = false → fault t2 = false →
   ∀ F1, as_set (db (redis w1) !! fwd clientId) = Some F1 →
     let channels := elements F1 in
     let batch := MultiExec (destroy_batch ns clientId channels) in
     let sr := exec batch (redis w2) in
     let left :=
       filter (λ channel, channel ∈ Spec.channels_of (redis w2) ns clientId)
              channels in
     serve gen (destroyClient ns clientId callback) [t1; t2] (w, p)
     = call gen (invoke callback)
         ({| redis := sr.1; clock := clock w2 |},
          record_all
            ([read (Some (Array channels)); Sent batch (Some sr.2)]
             ++ (if is_error sr.2 then [failed]
                 else
                   flat_map
                     (λ channel,
                        [Trigger "unsubscribe" [str clientId; str channel];
                         Debug "Unsubscribed client ? from channel ?"
                           [str clientId; str channel]]) left
                   ++ [Debug "Destroyed client ?" [str clientId];
                       Trigger "disconnect" [str clientId]])) p))
  ∧ (fault t1 = false → fault t2 = true →
     ∀ F1, as_set (db (redis w1) !! fwd clientId) = Some F1 →
       serve gen (destroyClient ns clientId callback) [t1; t2] (w, p)
       = call gen (invoke callback)
           (w2, record_all
                  [read (Some (Array (elements F1)));
                   Sent (MultiExec (destroy_batch ns clientId (elements F1)))
                        None;
                   failed] p))
  ∧ (fault t1 = false → as_set (db (redis w1) !! fwd clientId) = None →
     serve gen (destroyClient ns clientId callback) [t1] (w, p)
     = call gen (invoke callback)
         (w1, record_all [read (Some WRONGTYPE); failed] p))
  ∧ (fault t1 = true →
     serve gen (destroyClient ns clientId callback) [t1] (w, p)
     = call gen (invoke callback) (w1, record_all [read None; failed] p))
  ∧ (∀ channels,
       is_Some (as_zset (db (redis w2) !! (ns +:+ "/clients"))) →
       is_Some (as_set (db (redis w2) !! fwd clientId)) →
       (∀ channel, channel ∈ channels →
                   is_Some (as_set (db (redis w2) !! rev channel))) →
       is_error (exec (MultiExec (destroy_batch ns clientId channels))
                      (redis w2)).2 = false).
Proof.
  cbn zeta. split; [|split; [|split; [|split]]].
  5: { intros channels. apply destroy_batch_commits. }
  - intros F1 F2 S1 HS. rewrite destroyClient_serve. cbn zeta.
    rewrite F1, HS, F2. rewrite left_channels_filter.
    by destruct (is_error _).
  - intros F1 F2 S1 HS. rewrite destroyClient_serve. cbn zeta.
    by rewrite F1, HS, F2.
  - intros F1 HS. unfold destroyClient. rewrite serve_Await, F1. cbn zeta.
    cbn [exec exec_command]. rewrite HS. cbn [fst snd is_error WRONGTYPE].
    rewrite serve_nil, call_Emit, !record_all_cons, record_all_nil.
    by rewrite world_eta.
  - intros F1. unfold destroyClient. rewrite serve_Await, F1. cbn zeta.
    by rewrite serve_nil, call_Emit, !record_all_cons, record_all_nil.
Qed.

End Destroy.

(** The client "c" lists "/a", and "/a" does not list the client: the
    notification goes out all the same. *)
Lemma destroyClient_notifications_witness :
  let w := Sample.at_time 1700000000000 Sample.half_subscribed in
  let c := Async.serve Sample.ids
             (Engine.destroyClient "" "c" (Some (Spec.completed "destroyed")))
             [Async.quiet; Async.quiet] (w, Async.idle) in
  Redis.as_set (Redis.db (Async.redis w) !! "/clients/c/channels")
  = Some {[ "/a" ]}
  ∧ Spec.clients_of (Async.redis w) "" "/a" = ∅
  ∧ Async.triggered "unsubscribe" (Async.log c.2)
    = [[Engine.str "c"; Engine.str "/a"]]
  ∧ Async.triggered "disconnect" (Async.log c.2) = [[Engine.str "c"]]
  ∧ Spec.calls "destroyed" (Async.log c.2) = [[]].
Proof.
  split; [reflexivity|]. split; [reflexivity|].
  pose proof (proj1
    (destroyClient_notifications Sample.usual "" "c"
       (Some (Spec.completed "destroyed"))
       (Sample.at_time 1700000000000 Sample.half_subscribed) Async.idle
       Async.quiet Async.quiet)
    eq_refl eq_refl {[ "/a" ]} eq_refl) as H.
  cbn zeta in H. unfold Sample.usual, Sample.server in H.
  cbn [generateId] in H. cbv zeta. rewrite H. clear H. by vm_compute.
Defined.

(** C3 as stated fails twice.  The client "c" is not in the reverse index
    of "/a", so its removal from there answers 0 (third result of the
    batch), and "unsubscribe" is triggered all the same, because the
    removal from the forward index answered 1.  And when the first request
    fails, no "disconnect" is triggered, while the callback runs. *)
Lemma destroyClient_counterexample :
  let w := Sample.at_time 1700000000000 Sample.half_subscribed in
  let destroy :=
    Engine.destroyClient "" "c" (Some (Spec.completed "destroyed")) in
  let c := Async.serve Sample.ids destroy [Async.quiet; Async.quiet]
             (w, Async.idle) in
  let c' := Async.serve Sample.ids destroy [Sample.failing] (w, Async.idle) in
  Spec.clients_of (Async.redis w) "" "/a" = ∅
  ∧ Async.log c.2 !! 1%nat
    = Some (Async.Sent
              (Redis.MultiExec (Engine.destroy_batch "" "c" ["/a"]))
              (Some (Redis.Results
                       [Redis.Int 0; Redis.Int 1; Redis.Int 0;
                        Redis.Int 0; Redis.Int 1; Redis.Int 1])))
  ∧ Async.triggered "unsubscribe" (Async.log c.2)
    = [[Engine.str "c"; Engine.str "/a"]]
  ∧ Async.triggered "disconnect" (Async.log c'.2) = []
  ∧ Spec.calls "destroyed" (Async.log c'.2) = [[]].
Proof. vm_compute. auto 10. Qed.

(** * Creation of a client *)

Section Create.
Import Redis Async Engine.

Variable srv : FayeServer.
Variable ns : string.

Local Abbreviation gen := (generateId srv).
Local Abbreviation key := (ns +:+ "/clients").

Lemma serve_GenerateId k ticks w p :
  serve gen (GenerateId k) ticks (w, p) =
  serve gen (k (gen (ids p))) ticks
    (w, {| heap := heap p; ids := S (ids p); tasks := tasks p;
           log := log p |}).
Proof. reflexivity. Qed.

(** [n] collisions, then an insertion. *)
Lemma createClient_serve callback n :
  ∀ fuel w p m,
    as_zset (db (redis w) !! key) = Some m →
    (∀ i, (i < n)%nat → is_Some (m !! gen (ids p + i)%nat)) →
    m !! gen (ids p + n)%nat = None →
    (n < fuel)%nat →
    let clientId := gen (ids p + n)%nat in
    serve gen (createClient srv ns fuel callback) (repeat quiet (S n)) (w, p)
    = call gen
        (Emit (Debug "Created new client ?" [str clientId])
           (Spawn (ping srv ns clientId)
              (Emit (Trigger "handshake" [str clientId])
                 (callback clientId))))
        ({| redis := with_db (redis w)
                       (<[key := ZSet (<[clientId := 0]> m)]> (db (redis w)));
            clock := clock w |},
         {| heap := heap p; ids := (ids p + S n)%nat; tasks := tasks p;
            log := log p
                   ++ map (λ i, Sent (Single (ZADD key true 0 (gen i)))
                                     (Some (Int 0)))
                          (seq (ids p) n)
                   ++ [Sent (Single (ZADD key true 0 clientId))
                            (Some (Int 1))] |}).
Proof.
  induction n as [|n IH]; intros fuel w p m Hm Hdup Hfresh Hfuel;
    (destruct fuel as [|fuel]; [lia|]); cbn zeta;
    cbn [createClient repeat]; rewrite serve_GenerateId, serve_Await;
    cbn [quiet fault interfere]; cbn zeta; cbn [exec exec_command];
    rewrite Hm.
  - rewrite Nat.add_0_r in Hfresh. rewrite Hfresh.
    cbn [fst snd is_error is_int]. change (1 =? 0) with false. cbv iota.
    rewrite serve_nil, Nat.add_0_r. unfold record. cbn [heap ids tasks log].
    by rewrite Nat.add_1_r.
  - destruct (Hdup 0%nat ltac:(lia)) as [x Hx].
    rewrite Nat.add_0_r in Hx. rewrite Hx.
    cbn [fst snd is_error is_int]. change (0 =? 0) with true. cbv iota.
    rewrite world_eta.
    rewrite (IH fuel w _ m Hm); cbn [ids record]; [| |  |lia].
    + replace (S (ids p) + n)%nat with (ids p + S n)%nat by lia.
      do 3 f_equal.
      * lia.
      * cbn [log heap tasks seq map record]. by rewrite <- !app_assoc.
    + intros i Hi. replace (S (ids p) + i)%nat with (ids p + S i)%nat by lia.
      apply Hdup. lia.
    + by replace (S (ids p) + n)%nat with (ids p + S n)%nat by lia.
Qed.

Lemma collisions_log (l : list nat) :
  let sent := map (λ i, Sent (Single (ZADD key true 0 (gen i)))
                             (Some (Int 0))) l in
  Spec.calls "created" sent = []
  ∧ triggered "handshake" sent = []
  ∧ Spec.requests sent = map (λ i, Single (ZADD key true 0 (gen i))) l.
Proof.
  cbn zeta. induction l as [|i l (IH1 & IH2 & IH3)]; [done|].
  cbn [map]. unfold Spec.calls, triggered, Spec.requests in *.
  cbn [omap list_omap]. by rewrite IH1, IH2, IH3.
Qed.

(** C8.  When the next [n] identifiers of the generator are already in
    the session set and the one after is not, [createClient] sends one
    create-if-absent insertion per identifier, in order; the colliding
    ones answer 0 and leave the set as it was, the last one answers 1 and
    enters the set with score 0.  The engine then starts the first [ping]
    (when the heartbeat is a number), triggers "handshake" and hands the
    caller that last identifier, which was not in the set and is none of
    the colliding ones. *)
Theorem createClient_fresh callback n fuel w p m :
  as_zset (db (redis w) !! key) = Some m →
  (∀ i, (i < n)%nat → is_Some (m !! gen (ids p + i)%nat)) →
  m !! gen (ids p + n)%nat = None →
  (n < fuel)%nat →
  let clientId := gen (ids p + n)%nat in
  let attempt i := Single (ZADD key true 0 (gen i)) in
  let number := JS.typeof_number (timeout srv) in
  serve gen (createClient srv ns fuel callback) (repeat quiet (S n)) (w, p)
  = call gen (callback clientId)
      ({| redis := with_db (redis w)
                     (<[key := ZSet (<[clientId := 0]> m)]> (db (redis w)));
          clock := clock w |},
       {| heap := heap p;
          ids := (ids p + S n)%nat;
          tasks :=
            tasks p
            ++ (if number
                then [Await (Single (ZADD key false (clock w) clientId))
                            (λ _, Done)
                            (Emit (ConsoleError "Error pinging client:")
                               Done)]
                else []);
          log :=
            log p
            ++ map (λ i, Sent (attempt i) (Some (Int 0))) (seq (ids p) n)
            ++ [Sent (attempt (ids p + n)%nat) (Some (Int 1));
                Debug "Created new client ?" [str clientId]]
            ++ (if number
                then [Debug "Ping ?, ?"
                        [str clientId; Some (JNumber (clock w))]]
                else [])
            ++ [Trigger "handshake" [str clientId]] |})
  ∧ m !! clientId = None
  ∧ (∀ i, (i < n)%nat → clientId ≠ gen (ids p + i)%nat).
Proof.
  intros Hm Hdup Hfresh Hfuel. cbn zeta.
  rewrite (createClient_serve callback n fuel w p m Hm Hdup Hfresh Hfuel).
  cbn zeta. split; [|split; [done|]].
  - rewrite call_Emit, call_Spawn. unfold ping.
    destruct (JS.typeof_number (timeout srv)); cbn [negb sync];
      cbn [suspend fst snd]; rewrite !call_Emit;
      unfold record; cbn [heap ids tasks log clock]; rewrite ?app_nil_r;
      rewrite <- ?app_assoc; cbn [app]; rewrite <- ?app_assoc; cbn [app];
      done.
  - intros i Hi E. destruct (Hdup i Hi) as [x Hx]. congruence.
Qed.

End Create.

(** The generator answers "dup" twice and "id2" next while "dup" is in the
    session set: the caller gets "id2", after three insertions. *)
Lemma createClient_fresh_witness :
  let m : gmap string Z := list_to_map [("dup", 1700000000000)] in
  let w := Sample.at_time 1700000000000
             (Sample.sessions [("dup", 1700000000000)]) in
  let c := Async.serve Sample.ids
             (Engine.createClient Sample.usual "" 5 (Spec.returned "created"))
             (repeat Async.quiet 3) (w, Async.idle) in
  Redis.as_zset (Redis.db (Async.redis w) !! "/clients") = Some m
  ∧ (∀ i, (i < 2)%nat → is_Some (m !! Sample.ids i))
  ∧ m !! Sample.ids 2 = None
  ∧ (2 < 5)%nat
  ∧ Spec.calls "created" (Async.log c.2) = [[Engine.str "id2"]]
  ∧ Spec.requests (Async.log c.2)
    = [Redis.Single (Redis.ZADD "/clients" true 0 "dup");
       Redis.Single (Redis.ZADD "/clients" true 0 "dup");
       Redis.Single (Redis.ZADD "/clients" true 0 "id2")]
  ∧ Spec.score (Async.redis c.1) "" "id2" = Some 0.
Proof.
  assert (H1 : Redis.as_zset
                 (Redis.db (Sample.sessions [("dup", 1700000000000)])
                    !! "/clients")
               = Some (list_to_map [("dup", 1700000000000)]))
    by reflexivity.
  assert (H2 : ∀ i, (i < 2)%nat →
            is_Some ((list_to_map [("dup", 1700000000000)] : gmap string Z)
                       !! Sample.ids i)).
  { intros [|[|i]] Hi; [eexists; reflexivity | eexists; reflexivity | lia]. }
  assert (H3 : (list_to_map [("dup", 1700000000000)] : gmap string Z)
                 !! Sample.ids 2 = None) by reflexivity.
  assert (H4 : (2 < 5)%nat) by lia.
  split; [exact H1|]. split; [exact H2|]. split; [exact H3|].
  split; [exact H4|].
  pose proof (proj1 (createClient_fresh Sample.usual ""
                       (Spec.returned "created") 2 5
                       (Sample.at_time 1700000000000
                          (Sample.sessions [("dup", 1700000000000)]))
                       Async.idle _ H1 H2 H3 H4)) as H.
  cbn zeta in H. change (generateId Sample.usual) with Sample.ids in H.
  cbv zeta. rewrite H. by vm_compute.
Defined.

(** * The lock *)

Lemma toString_nonempty (z : Z) : JS.toString z ≠ "".
Proof.
  intros E. pose proof (integer_toString z) as H. rewrite E in H.
  discriminate H.
Qed.

Section Lock.
Import Redis Async Engine.

Variable srv : FayeServer.
Variable ns : string.

Variable lockName : string.

Local Abbreviation gen := (generateId srv).
Local Abbreviation lockKey := (ns +:+ "/locks/" +:+ lockName).

(** The store with the lock record set to [value]. *)
Local Abbreviation locked w key value :=
  ({| redis := with_db (redis w) (<[key := Str value]> (db (redis w)));
      clock := clock w |}).

(** C1.  [_withLock] at time [now], with [expiry = now + 120 * 1000 + 1],
    both safe integers as time values are:
    - it tries to create the lock record with value [expiry]; where the
      record is absent it is created and the callback runs;
    - where the record is present it reads it: it abstains when the record
      is gone by then, and when its value is later than [now];
    - when the value is not later than [now] it sets the record to
      [expiry] and gets the previous value in the same request: the
      callback runs when that value is the one it read, and it abstains
      when the value differs or is absent (the values are safe integers
      in decimal digits, as [_withLock] writes them);
    - [releaseLock] deletes the record when called before [expiry], and
      does nothing from [expiry] on. *)
Theorem withLock_protocol callback w p t1 t2 t3 :
  fault t1 = false → fault t2 = false → fault t3 = false →
  let now := clock w in
  let expiry := now + 120 * 1000 + 1 in
  let handler := Emit (ConsoleError "Error with lock:") Done in
  let release := releaseLock lockKey expiry in
  let create := Sent (Single (SETNX lockKey (JS.toString expiry))) in
  let read := Sent (Single (GET lockKey)) in
  let swap := Sent (Single (SET_GET lockKey (JS.toString expiry))) in
  let w1 := interfere t1 w in
  let w2 := interfere t2 w1 in
  let w3 := interfere t3 w2 in
  JS.safe now → JS.safe expiry →
  (db (redis w1) !! lockKey = None →
   serve gen (_withLock ns lockName callback) [t1] (w, p)
   = call gen (callback release handler)
       (locked w1 lockKey (JS.toString expiry),
        record_all [create (Some (Flag true))] p))
  ∧ (is_Some (db (redis w1) !! lockKey) →
     (db (redis w2) !! lockKey = None →
      serve gen (_withLock ns lockName callback) [t1; t2] (w, p)
      = (w2, record_all [create (Some (Flag false)); read (Some Nil)] p))
     ∧ ∀ v, JS.safe v →
         db (redis w2) !! lockKey = Some (Str (JS.toString v)) →
         let seen := [create (Some (Flag false));
                      read (Some (Bulk (JS.toString v)))] in
         (now < v →
          serve gen (_withLock ns lockName callback) [t1; t2] (w, p)
          = (w2, record_all seen p))
         ∧ (v <= now →
            (db (redis w3) !! lockKey = Some (Str (JS.toString v)) →
             serve gen (_withLock ns lockName callback) [t1; t2; t3] (w, p)
             = call gen (callback release (Emit UnhandledRejection Done))
                 (locked w3 lockKey (JS.toString expiry),
                  record_all
                    (seen ++ [swap (Some (Bulk (JS.toString v)))]) p))
            ∧ (∀ other, db (redis w3) !! lockKey = Some (Str other) →
                 other ≠ JS.toString v →
                 serve gen (_withLock ns lockName callback) [t1; t2; t3] (w, p)
                 = (locked w3 lockKey (JS.toString expiry),
                    record_all (seen ++ [swap (Some (Bulk other))]) p))
            ∧ (db (redis w3) !! lockKey = None →
               serve gen (_withLock ns lockName callback) [t1; t2; t3] (w, p)
               = (locked w3 lockKey (JS.toString expiry),
                  record_all (seen ++ [swap (Some Nil)]) p))))
  ∧ (∀ w' p' t, fault t = false → clock w' < expiry →
       serve gen release [t] (w', p')
       = ({| redis := with_db (redis (interfere t w'))
                        (delete lockKey (db (redis (interfere t w'))));
             clock := clock (interfere t w') |},
          record_all
            [Sent (Single (DEL lockKey))
               (Some (Int (match db (redis (interfere t w')) !! lockKey with
                           | Some _ => 1
                           | None => 0
                           end)))] p'))
  ∧ (∀ w' p', expiry <= clock w' → call gen release (w', p') = (w', p')).
Proof.
  intros F1 F2 F3. cbn zeta. intros Hnow _.
  set (expiry := clock w + 120 * 1000 + 1).
  assert (Hstart : ∀ ticks,
    serve gen (_withLock ns lockName callback) (t1 :: ticks) (w, p)
    = let sr := exec (Single (SETNX lockKey (JS.toString expiry)))
                     (redis (interfere t1 w)) in
      serve gen
        (if truthy sr.2
         then callback (releaseLock lockKey expiry)
                (Emit (ConsoleError "Error with lock:") Done)
         else
           Await (Single (GET lockKey))
             (λ timeout,
                if negb (truthy timeout) then Done
                else
                  if JS.lt (JS.of_Z (clock w)) (parseInt timeout) then Done
                  else
                    Await (Single (SET_GET lockKey (JS.toString expiry)))
                      (λ oldValue,
                         if strict_eq oldValue timeout
                         then callback (releaseLock lockKey expiry)
                                (Emit UnhandledRejection Done)
                         else Done)
                      (Emit (ConsoleError "Error with lock:") Done))
             (Emit (ConsoleError "Error with lock:") Done))
        ticks
        ({| redis := sr.1; clock := clock (interfere t1 w) |},
         record (Sent (Single (SETNX lockKey (JS.toString expiry)))
                      (Some sr.2)) p)).
  { intros ticks. unfold _withLock. rewrite serve_Now, serve_Await.
    rewrite F1. cbn zeta. cbn [fst clock].
    replace (is_error _) with false; [done|].
    cbn [exec exec_command].
    by destruct (db (redis (interfere t1 w)) !! _). }
  split; [|split; [|split]].
  - intros Hfree. rewrite Hstart. cbn zeta. cbn [exec exec_command].
    rewrite Hfree. cbn [fst snd truthy].
    by rewrite serve_nil, record_all_cons, record_all_nil.
  - intros [e He].
    assert (Hread : ∀ ticks,
      serve gen (_withLock ns lockName callback) (t1 :: t2 :: ticks) (w, p)
      = let sr := exec (Single (GET lockKey))
                       (redis (interfere t2 (interfere t1 w))) in
        serve gen
          (if is_error sr.2 then Emit (ConsoleError "Error with lock:") Done
           else if negb (truthy sr.2) then Done
           else
             if JS.lt (JS.of_Z (clock w)) (parseInt sr.2) then Done
             else
               Await (Single (SET_GET lockKey (JS.toString expiry)))
                 (λ oldValue,
                    if strict_eq oldValue sr.2
                    then callback (releaseLock lockKey expiry)
                           (Emit UnhandledRejection Done)
                    else Done)
                 (Emit (ConsoleError "Error with lock:") Done))
          ticks
          ({| redis := sr.1;
              clock := clock (interfere t2 (interfere t1 w)) |},
           record_all
             [Sent (Single (SETNX lockKey (JS.toString expiry)))
                   (Some (Flag false));
              Sent (Single (GET lockKey)) (Some sr.2)] p)).
    { intros ticks. rewrite Hstart. cbn zeta. cbn [exec exec_command].
      rewrite He. cbn [fst snd truthy]. rewrite world_eta.
      rewrite serve_Await, F2. cbn zeta. cbn [exec redis clock].
      by rewrite !record_all_cons, record_all_nil. }
    split.
    + intros Hgone. rewrite Hread. cbn zeta. cbn [exec exec_command].
      rewrite Hgone. cbn [fst snd is_error truthy negb].
      by rewrite serve_nil, call_Done, world_eta.
    + intros v Hsafe Hv. cbn zeta.
      assert (Htruthy : truthy (Bulk (JS.toString v)) = true).
      { cbn [truthy]. apply negb_true_iff, String.eqb_neq, toString_nonempty. }
      split.
      * intros Hfuture. rewrite Hread. cbn zeta. cbn [exec exec_command].
        rewrite Hv. cbn [fst snd is_error]. rewrite Htruthy. cbn [negb].
        cbn [parseInt]. rewrite parseInt_toString, lt_of_Z by done.
        rewrite bool_decide_eq_true_2 by done.
        by rewrite serve_nil, call_Done, world_eta.
      * intros Hpast.
        assert (Hswap :
          serve gen (_withLock ns lockName callback) [t1; t2; t3] (w, p)
          = let sr := exec (Single (SET_GET lockKey (JS.toString expiry)))
                 (redis (interfere t3 (interfere t2 (interfere t1 w)))) in
            call gen
              (if is_error sr.2
               then Emit (ConsoleError "Error with lock:") Done
               else if strict_eq sr.2 (Bulk (JS.toString v))
                    then callback (releaseLock lockKey expiry)
                           (Emit UnhandledRejection Done)
                    else Done)
              ({| redis := sr.1;
                  clock := clock (interfere t3 (interfere t2 (interfere t1 w))) |},
               record_all
                 ([Sent (Single (SETNX lockKey (JS.toString expiry)))
                        (Some (Flag false));
                   Sent (Single (GET lockKey))
                        (Some (Bulk (JS.toString v)))]
                  ++ [Sent (Single (SET_GET lockKey (JS.toString expiry)))
                           (Some sr.2)]) p)).
        { rewrite Hread. cbn zeta. cbn [exec exec_command].
          rewrite Hv. cbn [fst snd is_error]. rewrite Htruthy. cbn [negb].
          cbn [parseInt]. rewrite parseInt_toString, lt_of_Z by done.
          rewrite bool_decide_eq_false_2 by lia.
          rewrite world_eta, serve_Await, F3. cbn zeta.
          rewrite serve_nil.
          destruct (is_error _); by rewrite record_all_app, !record_all_cons,
            !record_all_nil. }
        split; [|split].
        -- intros Hsame. rewrite Hswap. cbn zeta. cbn [exec exec_command].
           rewrite Hsame. cbn [fst snd is_error strict_eq].
           by rewrite String.eqb_refl.
        -- intros other Hother Hne. rewrite Hswap. cbn zeta.
           cbn [exec exec_command].
           rewrite Hother. cbn [fst snd is_error strict_eq].
           apply String.eqb_neq in Hne. rewrite Hne.
           by rewrite call_Done.
        -- intros Hgone. rewrite Hswap. cbn zeta. cbn [exec exec_command].
           rewrite Hgone. cbn [fst snd is_error strict_eq].
           by rewrite call_Done.
  - intros w' p' t Ft Hbefore. unfold releaseLock.
    rewrite serve_Now. cbn [fst].
    apply Z.ltb_lt in Hbefore. rewrite Hbefore.
    rewrite serve_Await, Ft. cbn zeta. cbn [exec exec_command].
    destruct (db (redis (interfere t w')) !! lockKey) eqn:E;
      cbn [fst snd is_error]; rewrite serve_nil, call_Done,
      record_all_cons, record_all_nil; [done|].
    cbn [with_db]. rewrite delete_id by done. do 2 f_equal.
    by destruct (redis (interfere t w')).
  - intros w' p' Hafter. unfold releaseLock. rewrite call_Now. cbn [fst].
    apply Z.ltb_ge in Hafter. rewrite Hafter. by rewrite call_Done.
Qed.

End Lock.

(** With no lock record in the store the caller becomes the runner, and
    the record holds [now + 120001]. *)
Lemma withLock_protocol_witness :
  let w := Sample.at_time 1700000000000 (Sample.sessions []) in
  let c := Async.serve Sample.ids (Engine._withLock "" "gc" Sample.holder)
             [Async.quiet] (w, Async.idle) in
  Async.fault Async.quiet = false
  ∧ Redis.db (Async.redis w) !! "/locks/gc" = None
  ∧ Spec.lock_of (Async.redis c.1) "" "gc"
    = Some (Redis.Str "1700000120001")
  ∧ Spec.calls "holder" (Async.log c.2) = [[]].
Proof.
  split; [reflexivity|]. split; [reflexivity|].
  pose proof (proj1 (withLock_protocol Sample.usual "" "gc" Sample.holder
    (Sample.at_time 1700000000000 (Sample.sessions [])) Async.idle
    Async.quiet Async.quiet Async.quiet eq_refl eq_refl eq_refl
    eq_refl eq_refl) eq_refl)
    as H.
  unfold Sample.usual, Sample.server in H. cbn [generateId] in H.
  cbv zeta. rewrite H. split; reflexivity.
Defined.

(** * More keys *)

Lemma length_append (s t : string) :
  String.length (s +:+ t) = (String.length s + String.length t)%nat.
Proof. induction s as [|a s IH]; simpl; [done | by rewrite IH]. Qed.

Lemma append_inj_r (t s1 s2 : string) : s1 +:+ t = s2 +:+ t → s1 = s2.
Proof.
  revert s2. induction s1 as [|a s1 IH]; intros [|b s2] H.
  - done.
  - apply (f_equal String.length) in H. rewrite !length_append in H.
    cbn [String.length] in H. lia.
  - apply (f_equal String.length) in H. rewrite !length_append in H.
    cbn [String.length] in H. lia.
  - cbn [append] in H. injection H as -> H. f_equal. by apply IH.
Qed.

Lemma queue_inj (ns c c' : string) :
  ns +:+ "/clients/" +:+ c +:+ "/messages"
  = ns +:+ "/clients/" +:+ c' +:+ "/messages" → c = c'.
Proof.
  intros H. apply (inj (String.append ns)) in H.
  apply (inj (String.append "/clients/")) in H.
  by apply append_inj_r in H.
Qed.

Lemma clients_queue_ne (ns c : string) :
  ns +:+ "/clients" ≠ ns +:+ "/clients/" +:+ c +:+ "/messages".
Proof. intros H. apply (inj (String.append ns)) in H. discriminate H. Qed.

(** * Publishing *)

Section Publish.
Import Redis Async Engine.

Variable srv : FayeServer.
Variable ns : string.
Variable JSON : JSON_t.

Local Abbreviation gen := (generateId srv).
Local Abbreviation key := (ns +:+ "/clients").
Local Abbreviation rev ch := (ns +:+ "/channels" +:+ ch).
Local Abbreviation queue c := (ns +:+ "/clients/" +:+ c +:+ "/messages").

(** Served after its end, a method does nothing. *)
Lemma run_quiet_over i n w p :
  tasks p !! i = None →
  run gen (map (λ t, (i, t)) (repeat quiet n)) (w, p) = (w, p).
Proof.
  intros H. induction n as [|n IH]; [done|].
  cbn [repeat map run]. unfold step at 1. cbn [fst snd quiet interfere].
  by rewrite H.
Qed.

Lemma serve_Done_quiet n w p : serve gen Done (repeat quiet n) (w, p) = (w, p).
Proof.
  rewrite serve_Done. apply run_quiet_over.
  apply lookup_ge_None. cbn. lia.
Qed.

Lemma serve_Await_quiet rq k h n w p :
  serve gen (Await rq k h) (repeat quiet (S n)) (w, p) =
  let sr := exec rq (redis w) in
  serve gen (if is_error sr.2 then h else k sr.2) (repeat quiet n)
        ({| redis := sr.1; clock := clock w |},
         record (Sent rq (Some sr.2)) p).
Proof. cbn [repeat]. by rewrite serve_Await. Qed.

Lemma SUNION_subscribers channels s :
  channels ≠ [] →
  (∀ ch, ch ∈ channels → is_Some (as_set (db s !! rev ch))) →
  exec_command (SUNION (map (λ c, rev c) channels)) s
  = (s, Array (elements (Spec.subscribers s ns channels))).
Proof.
  intros Hne Hok. cbn [exec_command].
  assert (Hu : union_all (map (λ key, as_set (db s !! key))
                              (map (λ c, rev c) channels))
               = Some (Spec.subscribers s ns channels)).
  { clear Hne. unfold Spec.subscribers.
    induction channels as [|ch rest IH]; [done|].
    cbn [map union_all]. rewrite union_list_cons.
    destruct (Hok ch) as [m Hm]; [apply list_elem_of_here|].
    rewrite Hm, IH.
    2: { intros ch' Hin. apply Hok. by apply list_elem_of_further. }
    cbn. do 2 f_equal. unfold Spec.clients_of.
    destruct (db s !! rev ch) as [[]|]; naive_solver. }
  rewrite Hu. by destruct channels.
Qed.

Lemma live_same s s' now clientId :
  db s' !! key = db s !! key →
  Spec.live s' ns now (timeout srv) clientId
  = Spec.live s ns now (timeout srv) clientId.
Proof. intros H. unfold Spec.live, Spec.score. by rewrite H. Qed.

Lemma clientExists_quiet clientId callback w p n :
  ∃ evs,
    serve gen (clientExists srv ns clientId callback) (repeat quiet (S n))
          (w, p)
    = serve gen
        (callback (Spec.live (redis w) ns (clock w) (timeout srv) clientId))
        (repeat quiet n) (w, record_all evs p)
    ∧ Spec.requests evs = [Single (ZSCORE key clientId)]
    ∧ triggered "publish" evs = [].
Proof.
  cbn [repeat]. rewrite clientExists_serve. cbn zeta.
  cbn [quiet fault interfere]. unfold Spec.live, Spec.score.
  destruct (db (redis w) !! key) as [[m| | |]|].
  - destruct (m !! clientId) as [score|];
      eexists [_]; rewrite record_all_cons, record_all_nil; by repeat split.
  - eexists [_; _]. rewrite serve_Emit, !record_all_cons, record_all_nil.
    by repeat split.
  - eexists [_; _]. rewrite serve_Emit, !record_all_cons, record_all_nil.
    by repeat split.
  - eexists [_; _]. rewrite serve_Emit, !record_all_cons, record_all_nil.
    by repeat split.
  - eexists [_]; rewrite record_all_cons, record_all_nil; by repeat split.
Qed.

(** One subscriber of [publish]. *)
Lemma publish_one message jsonMessage clientId next handler l w p n :
  as_list (db (redis w) !! queue clientId) = Some l →
  let exists_ := Spec.live (redis w) ns (clock w) (timeout srv) in
  ∃ evs s',
    serve gen
      (Emit (Debug "Queueing for client ?: ?"
               [str clientId; Some (JObject message)])
         (Await (Single (RPUSH (queue clientId) jsonMessage))
            (λ _,
               Await (Single (PUBLISH (_messageChannel ns) clientId))
                 (λ _,
                    clientExists srv ns clientId (λ e,
                      if negb e
                      then Await (Single (DEL (queue clientId)))
                             (λ _, next) handler
                      else next))
                 handler)
            handler))
      (repeat quiet (4 + n)) (w, p)
    = serve gen next
        (repeat quiet (if exists_ clientId then S n else n))
        ({| redis := s'; clock := clock w |}, record_all evs p)
    ∧ Spec.requests evs = Spec.fanout ns jsonMessage exists_ clientId
    ∧ triggered "publish" evs = []
    ∧ db s'
      = (if exists_ clientId
         then <[queue clientId := LList (l ++ [jsonMessage])]>
                (db (redis w))
         else delete (queue clientId) (db (redis w)))
    ∧ pubsub s' = pubsub (redis w) ++ [(_messageChannel ns, clientId)]
    ∧ listeners s' = listeners (redis w).
Proof.
  intros Hl. cbn zeta. cbn [Nat.add].
  rewrite serve_Emit, serve_Await_quiet. cbn zeta.
  cbn [exec exec_command]. rewrite Hl. cbn [fst snd is_error].
  rewrite serve_Await_quiet. cbn zeta.
  cbn [exec exec_command fst snd is_error redis clock db with_db pubsub].
  match goal with
  | |- context [serve _ (clientExists _ _ _ ?cb) _ (?W, ?P)] =>
      destruct (clientExists_quiet clientId cb W P (S n))
        as (evs & -> & Hrq & Htr)
  end.
  cbn [redis clock].
  rewrite (live_same (redis w)).
  2: { cbn [db]. apply lookup_insert_ne. intros E. symmetry in E.
       by apply clients_queue_ne in E. }
  destruct (Spec.live (redis w) ns (clock w) (timeout srv) clientId) eqn:Hlive;
    cbn [negb].
  - eexists (_ :: _ :: _ :: evs), _.
    split; [|split; [|split; [|split; [|split]]]].
    + rewrite !record_all_cons. reflexivity.
    + unfold Spec.fanout. rewrite Hlive.
      change (?a :: ?b :: ?c :: evs) with ([a; b; c] ++ evs).
      rewrite requests_app, Hrq. reflexivity.
    + change (?a :: ?b :: ?c :: evs) with ([a; b; c] ++ evs).
      rewrite triggered_app, Htr. reflexivity.
    + reflexivity.
    + reflexivity.
    + reflexivity.
  - rewrite serve_Await_quiet. cbn zeta.
    cbn [exec exec_command fst snd is_error redis clock db with_db pubsub].
    rewrite lookup_insert_eq. cbn [fst snd is_error db pubsub].
    eexists (_ :: _ :: _ :: evs ++ [_]), _.
    split; [|split; [|split; [|split; [|split]]]].
    + rewrite !record_all_cons, record_all_app, record_all_cons,
        record_all_nil. reflexivity.
    + unfold Spec.fanout. rewrite Hlive.
      change (?a :: ?b :: ?c :: evs ++ ?d) with ([a; b; c] ++ evs ++ d).
      rewrite !requests_app, Hrq. reflexivity.
    + change (?a :: ?b :: ?c :: evs ++ ?d) with ([a; b; c] ++ evs ++ d).
      rewrite !triggered_app, Htr. reflexivity.
    + cbn [db]. by rewrite delete_insert_eq.
    + reflexivity.
    + reflexivity.
Qed.

Lemma queue_of_as_list s clientId l :
  as_list (db s !! queue clientId) = Some l → Spec.queue_of s ns clientId = l.
Proof.
  unfold Spec.queue_of. destruct (db s !! queue clientId) as [[]|]; naive_solver.
Qed.

(** The loop of [publish]. *)
Lemma publish_each_quiet message jsonMessage k handler clients :
  ∀ w p N,
    NoDup clients →
    Spec.queues_ok (redis w) ns →
    (4 * length clients ≤ N)%nat →
    let exists_ := Spec.live (redis w) ns (clock w) (timeout srv) in
    ∃ N' s' evs,
      (N ≤ N' + 4 * length clients)%nat
      ∧ serve gen
          (publish_each srv ns message jsonMessage clients k handler)
          (repeat quiet N) (w, p)
        = serve gen k (repeat quiet N')
            ({| redis := s'; clock := clock w |}, record_all evs p)
      ∧ Spec.requests evs
        = flat_map (Spec.fanout ns jsonMessage exists_) clients
      ∧ triggered "publish" evs = []
      ∧ db s' !! key = db (redis w) !! key
      ∧ pubsub s'
        = pubsub (redis w) ++ map (λ c, (_messageChannel ns, c)) clients
      ∧ (∀ c, c ∈ clients →
           Spec.queue_of s' ns c
           = if exists_ c
             then Spec.queue_of (redis w) ns c ++ [jsonMessage]
             else [])
      ∧ (∀ c, c ∉ clients → db s' !! queue c = db (redis w) !! queue c)
      ∧ Spec.queues_ok s' ns
      ∧ (∀ k, (∀ c, c ∈ clients → k ≠ queue c) →
              db s' !! k = db (redis w) !! k)
      ∧ listeners s' = listeners (redis w).
Proof.
  induction clients as [|c rest IH]; intros w p N Hnd Hq HN; cbn zeta.
  - exists N, (redis w), []. rewrite world_eta, record_all_nil.
    cbn [publish_each length map flat_map]. rewrite app_nil_r.
    repeat split; try done; [lia|]. intros c Hc. by apply elem_of_nil in Hc.
  - apply NoDup_cons in Hnd as [Hc Hnd]. cbn [length] in HN.
    destruct (Nat.le_exists_sub 4 N) as (M & -> & _); [lia|].
    rewrite (Nat.add_comm M 4).
    destruct (Hq c) as [l Hl].
    cbn [publish_each].
    destruct (publish_one message jsonMessage c
                (publish_each srv ns message jsonMessage rest k handler)
                handler l w p M Hl)
      as (evs1 & s1 & -> & Hrq1 & Htr1 & Hdb1 & Hps1 & Hls1).
    cbn zeta in Hrq1, Hdb1.
    set (live := Spec.live (redis w) ns (clock w) (timeout srv)) in *.
    assert (Hkey : db s1 !! key = db (redis w) !! key).
    { rewrite Hdb1. destruct (live c).
      - apply lookup_insert_ne. intros E. symmetry in E.
        by apply clients_queue_ne in E.
      - apply lookup_delete_ne. intros E. symmetry in E.
        by apply clients_queue_ne in E. }
    assert (Hother : ∀ c', c' ≠ c → db s1 !! queue c' = db (redis w) !! queue c').
    { intros c' Hne. rewrite Hdb1. destruct (live c).
      - apply lookup_insert_ne. intros E. by apply queue_inj in E.
      - apply lookup_delete_ne. intros E. by apply queue_inj in E. }
    assert (Hq1 : Spec.queues_ok s1 ns).
    { intros c'. destruct (decide (c' = c)) as [->|Hne].
      - rewrite Hdb1. destruct (live c).
        + rewrite lookup_insert_eq. by eexists.
        + rewrite lookup_delete_eq. by eexists.
      - rewrite Hother by done. apply Hq. }
    destruct (IH {| redis := s1; clock := clock w |} (record_all evs1 p)
                (if live c then S M else M) Hnd Hq1)
      as (N' & s' & evs & HN' & -> & Hrq & Htr & Hdb & Hps & Hqs & Hrest & Hq'
          & Hframe & Hls).
    { destruct (live c); lia. }
    cbn [redis clock] in *.
    exists N', s', (evs1 ++ evs).
    split; [cbn [length]; destruct (live c); lia|].
    split; [by rewrite record_all_app|].
    split.
    { rewrite requests_app, Hrq1, Hrq. cbn [flat_map]. f_equal.
      apply flat_map_agree. intros c' _. unfold Spec.fanout.
      by rewrite (live_same (redis w) s1). }
    split; [by rewrite triggered_app, Htr1, Htr|].
    split; [by rewrite Hdb|].
    split; [rewrite Hps, Hps1; cbn [map]; by rewrite <- app_assoc|].
    split; [|split; [|split; [done|split]]].
    3: { intros k' Hk. rewrite Hframe.
         2: { intros c' Hc'. apply Hk. by apply list_elem_of_further. }
         rewrite Hdb1. destruct (live c).
         - apply lookup_insert_ne. intros E. symmetry in E. revert E.
           apply Hk, list_elem_of_here.
         - apply lookup_delete_ne. intros E. symmetry in E. revert E.
           apply Hk, list_elem_of_here. }
    3: { by rewrite Hls. }
    + intros c' Hin. apply elem_of_cons in Hin as [->|Hin].
      * rewrite (queue_of_as_list (redis w) c l Hl).
        apply queue_of_as_list. rewrite Hrest, Hdb1 by done.
        fold (live c). destruct (live c).
        -- by rewrite lookup_insert_eq.
        -- by rewrite lookup_delete_eq.
      * rewrite Hqs by done. rewrite (live_same (redis w) s1) by done.
        fold (live c'). destruct (live c'); [|done].
        f_equal. unfold Spec.queue_of. rewrite Hother; [done|].
        by intros ->.
    + intros c' Hnot. apply not_elem_of_cons in Hnot as [Hne Hnot].
      by rewrite Hrest, Hother.
Qed.

Lemma elem_of_subscribers s channels x :
  x ∈ Spec.subscribers s ns channels
  ↔ ∃ ch, ch ∈ channels ∧ x ∈ Spec.clients_of s ns ch.
Proof.
  unfold Spec.subscribers. rewrite elem_of_union_list. split.
  - intros (X & HX & Hx). apply list_elem_of_In, in_map_iff in HX
      as (ch & <- & Hch). exists ch. split; [by apply list_elem_of_In|done].
  - intros (ch & Hch & Hx). exists (Spec.clients_of s ns ch). split; [|done].
    apply list_elem_of_In, in_map_iff. exists ch.
    split; [done | by apply list_elem_of_In].
Qed.

(** What a [publish] that nothing disturbs sends, leaves in the store and
    tells the server. *)
Lemma publish_quiet message channels w p N :
  channels ≠ [] →
  (∀ ch, ch ∈ channels → is_Some (as_set (db (redis w) !! rev ch))) →
  Spec.queues_ok (redis w) ns →
  let clients := elements (Spec.subscribers (redis w) ns channels) in
  (1 + 4 * length clients ≤ N)%nat →
  let jsonMessage := stringify JSON (JObject message) in
  let exists_ := Spec.live (redis w) ns (clock w) (timeout srv) in
  ∃ s' evs,
    serve gen (publish srv ns JSON message channels) (repeat quiet N) (w, p)
    = ({| redis := s'; clock := clock w |}, record_all evs p)
    ∧ Spec.requests evs
      = Single (SUNION (map (λ ch, rev ch) channels))
        :: flat_map (Spec.fanout ns jsonMessage exists_) clients
    ∧ triggered "publish" evs
      = [[property "clientId" message; property "channel" message;
          property "data" message]]
    ∧ (∀ x, x ∈ clients →
         Spec.queue_of s' ns x
         = if exists_ x
           then Spec.queue_of (redis w) ns x ++ [jsonMessage]
           else [])
    ∧ (∀ x, x ∉ clients → db s' !! queue x = db (redis w) !! queue x)
    ∧ db s' !! key = db (redis w) !! key
    ∧ pubsub s'
      = pubsub (redis w) ++ map (λ x, (_messageChannel ns, x)) clients
    ∧ last evs
      = Some (Trigger "publish"
                [property "clientId" message; property "channel" message;
                 property "data" message])
    ∧ (∀ k, (∀ x, x ∈ clients → k ≠ queue x) →
            db s' !! k = db (redis w) !! k)
    ∧ listeners s' = listeners (redis w).
Proof.
  intros Hne Hsets Hq clients HN jsonMessage exists_.
  unfold publish. rewrite serve_Emit.
  destruct N as [|N]; [lia|].
  rewrite serve_Await_quiet. cbn zeta. cbn [exec].
  rewrite SUNION_subscribers by done. fold clients.
  cbn [fst snd is_error strings].
  match goal with
  | |- context [serve _ (publish_each _ _ _ ?j ?cl ?k ?h) _ (?W, ?P)] =>
      destruct (publish_each_quiet message j k h cl W P N)
        as (N' & s' & evs & _ & -> & Hrq & Htr & Hkey & Hps & Hqs & Hrest & _
            & Hframe & Hls)
  end.
  { apply NoDup_elements. }
  { done. }
  { lia. }
  cbn [redis clock] in *.
  rewrite serve_Emit, serve_Done_quiet.
  exists s',
    ([Debug "Publishing message ?" [Some (JObject message)];
      Sent (Single (SUNION (map (λ ch, rev ch) channels)))
           (Some (Array clients))]
     ++ evs
     ++ [Trigger "publish"
           [property "clientId" message; property "channel" message;
            property "data" message]]).
  split.
  { by rewrite !record_one, !record_all_join, <- ?app_assoc. }
  rewrite !requests_app, !triggered_app, Hrq, Htr.
  split; [cbn; by rewrite app_nil_r|].
  split; [done|]. split; [done|]. split; [done|]. split; [done|].
  split; [done|]. split; [by rewrite !app_assoc, last_snoc|]. done.
Qed.

(** C6, amended.  [publish] to at least one channel, with the store to
    itself and no failing request, whatever the process did before: it
    asks for the union of the reverse indices of the channels and
    processes every client of that union once; for each it appends the
    serialized message to the queue, publishes the client identifier on
    the fan-out channel, runs the existence check and deletes the queue
    when the check answers false; and it triggers "publish" exactly once,
    at the very end, however many subscribers there are.  Every key
    other than the queues of those clients stays as it was. *)
Theorem publish_fanout message channels w p N :
  channels ≠ [] →
  (∀ ch, ch ∈ channels → is_Some (as_set (db (redis w) !! rev ch))) →
  Spec.queues_ok (redis w) ns →
  Spec.safe_scores (redis w) ns →
  let clients := elements (Spec.subscribers (redis w) ns channels) in
  (1 + 4 * length clients ≤ N)%nat →
  let jsonMessage := stringify JSON (JObject message) in
  let exists_ := Spec.live (redis w) ns (clock w) (timeout srv) in
  NoDup clients
  ∧ (∀ x, x ∈ clients
          ↔ ∃ ch, ch ∈ channels ∧ x ∈ Spec.clients_of (redis w) ns ch)
  ∧ ∃ s' evs,
      serve gen (publish srv ns JSON message channels) (repeat quiet N) (w, p)
      = ({| redis := s'; clock := clock w |}, record_all evs p)
      ∧ Spec.requests evs
        = Single (SUNION (map (λ ch, rev ch) channels))
          :: flat_map (Spec.fanout ns jsonMessage exists_) clients
      ∧ triggered "publish" evs
        = [[property "clientId" message; property "channel" message;
            property "data" message]]
      ∧ (∀ x, x ∈ clients →
           Spec.queue_of s' ns x
           = if exists_ x
             then Spec.queue_of (redis w) ns x ++ [jsonMessage]
             else [])
      ∧ (∀ x, x ∉ clients → db s' !! queue x = db (redis w) !! queue x)
      ∧ db s' !! key = db (redis w) !! key
      ∧ pubsub s'
        = pubsub (redis w) ++ map (λ x, (_messageChannel ns, x)) clients
      ∧ last evs
        = Some (Trigger "publish"
                  [property "clientId" message; property "channel" message;
                   property "data" message])
      ∧ (∀ k, (∀ x, x ∈ clients → k ≠ queue x) →
              db s' !! k = db (redis w) !! k)
      ∧ listeners s' = listeners (redis w).
Proof.
  intros Hne Hsets Hq _ clients HN jsonMessage exists_.
  split; [apply NoDup_elements|].
  split.
  { intros x. unfold clients. rewrite elem_of_elements.
    apply elem_of_subscribers. }
  by apply publish_quiet.
Qed.

End Publish.

Lemma two_channels_queues_ok : Spec.queues_ok Sample.two_channels "".
Proof.
  intros clientId. unfold Sample.two_channels. cbn [Redis.db].
  rewrite !lookup_insert_ne by discriminate.
  rewrite lookup_singleton_ne by discriminate. by eexists.
Qed.

Lemma two_channels_safe : Spec.safe_scores Sample.two_channels "".
Proof.
  intros x sc H. unfold Spec.score in H.
  change (Redis.db Sample.two_channels !! ("" +:+ "/clients"))
    with (Some (Redis.ZSet ({[ "c" := 1700000000000; "d" := 1 ]}
                              : gmap string Z))) in H.
  cbv iota in H.
  apply lookup_insert_Some in H as [[_ <-]|[_ H]]; [reflexivity|].
  apply lookup_singleton_Some in H as [_ <-]. reflexivity.
Qed.

(** "c" is reached through both channels and gets the message once; the
    queue of the stale "d" is dropped again. *)
Lemma publish_fanout_witness :
  let w := Sample.at_time 1700000000000 Sample.two_channels in
  let c := Async.serve Sample.ids
             (Engine.publish Sample.usual "" Codec.JSON Sample.hello
                ["/a"; "/b"])
             (repeat Async.quiet 9) (w, Async.idle) in
  Spec.queues_ok (Async.redis w) ""
  ∧ Spec.safe_scores (Async.redis w) ""
  ∧ (1 + 4 * length (elements (Spec.subscribers (Async.redis w) ""
                                 ["/a"; "/b"])) ≤ 9)%nat
  ∧ Async.triggered "publish" (Async.log c.2)
    = [[Some (JString "p"); Some (JString "/a");
        Engine.property "data" Sample.hello]]
  ∧ Spec.queue_of (Async.redis c.1) "" "c"
    = [Codec.print (JObject Sample.hello)]
  ∧ Spec.queue_of (Async.redis c.1) "" "d" = [].
Proof.
  assert (H1 : ["/a"; "/b"] ≠ ([] : list string)) by discriminate.
  assert (H2 : ∀ ch, ch ∈ ["/a"; "/b"] →
            is_Some (Redis.as_set
                       (Redis.db Sample.two_channels !! ("/channels" +:+ ch)))).
  { intros ch Hch. apply elem_of_cons in Hch as [->|Hch];
      [eexists; reflexivity|].
    apply elem_of_cons in Hch as [->|Hch]; [eexists; reflexivity|].
    by apply elem_of_nil in Hch. }
  assert (H4 : (1 + 4 * length (elements (Spec.subscribers
                  Sample.two_channels "" ["/a"; "/b"])) ≤ 9)%nat)
    by (vm_compute; lia).
  pose proof (publish_fanout Sample.usual "" Codec.JSON Sample.hello
                ["/a"; "/b"]
                (Sample.at_time 1700000000000 Sample.two_channels)
                Async.idle 9
                H1 H2 two_channels_queues_ok two_channels_safe H4)
    as (_ & _ & s' & evs & Heq & _ & Ht & Hq & _).
  change (generateId Sample.usual) with Sample.ids in Heq.
  split; [exact two_channels_queues_ok|]. split; [exact two_channels_safe|].
  split; [exact H4|].
  cbv zeta. rewrite Heq. cbn [fst snd Async.redis Async.log Async.record_all
                               Async.idle app].
  split; [exact Ht|].
  split.
  - apply (Hq "c"). apply elem_of_elements. by vm_compute.
  - apply (Hq "d"). apply elem_of_elements. by vm_compute.
Defined.

(** C6 as stated fails for a publish to no channel: the store refuses a
    union of no key, the error is logged, and "publish" is not
    triggered. *)
Lemma publish_no_channel_counterexample :
  let w := Sample.at_time 1700000000000 Sample.two_channels in
  let c := Async.serve Sample.ids
             (Engine.publish Sample.usual "" Codec.JSON Sample.hello [])
             [Async.quiet] (w, Async.idle) in
  Async.log c.2
  = [Async.Debug "Publishing message ?" [Some (JObject Sample.hello)];
     Async.Sent (Redis.Single (Redis.SUNION []))
       (Some (Redis.Error
                "ERR wrong number of arguments for 'sunion' command"));
     Async.ConsoleError "Error publishing:"]
  ∧ Async.triggered "publish" (Async.log c.2) = []
  ∧ Async.tasks c.2 = []
  ∧ c.1 = w.
Proof. vm_compute. auto. Qed.

(** * Draining a queue *)

Lemma lrange_all (l : list string) : Redis.lrange l 0 (-1) = l.
Proof.
  unfold Redis.lrange. cbn [Z.ltb Z.compare].
  destruct l as [|x l]; [done|].
  replace (Z.of_nat (length (x :: l)) + -1 <? 0) with false
    by (symmetry; apply Z.ltb_ge; cbn [length]; lia).
  replace (Z.to_nat (Z.of_nat (length (x :: l)) + -1 - 0 + 1))
    with (length (x :: l)) by lia.
  change (Z.to_nat 0) with 0%nat. by rewrite drop_0, firstn_all.
Qed.

Lemma mapM_snoc {A B} (f : A → option B) (l : list A) (x : A) ys y :
  mapM f l = Some ys → f x = Some y → mapM f (l ++ [x]) = Some (ys ++ [y]).
Proof.
  revert ys. induction l as [|a l IH]; intros ys Hl Hx; cbn in *.
  - injection Hl as <-. by rewrite Hx.
  - destruct (f a) as [b|]; [|done]. cbn in *.
    destruct (mapM f l) as [bs|]; [|done]. cbn in *.
    injection Hl as <-. by rewrite (IH bs eq_refl Hx).
Qed.

Section Drain.
Import Redis Async Engine.

Variable srv : FayeServer.
Variable ns : string.
Variable JSON : JSON_t.

Local Abbreviation gen := (generateId srv).
Local Abbreviation rev ch := (ns +:+ "/channels" +:+ ch).
Local Abbreviation queue c := (ns +:+ "/clients/" +:+ c +:+ "/messages").

(** A drain of a queue that holds [l], not empty, all of it readable. *)
Lemma emptyQueue_quiet clientId l messages w p :
  hasConnection srv clientId = true →
  db (redis w) !! queue clientId = Some (LList l) →
  l ≠ [] →
  parse_all JSON l = Some messages →
  serve gen (emptyQueue srv ns JSON clientId) [quiet] (w, p)
  = ({| redis := with_db (redis w) (delete (queue clientId) (db (redis w)));
        clock := clock w |},
     record_all
       [Sent (MultiExec [LRANGE (queue clientId) 0 (-1);
                         DEL (queue clientId)])
             (Some (Results [Array l; Int 1]));
        Deliver clientId messages] p).
Proof.
  intros Hc Hl Hne Hparse. unfold emptyQueue. rewrite Hc. cbn [negb].
  rewrite serve_Await. cbn [quiet fault interfere]. cbn zeta.
  cbn [exec exec_multi exec_command]. rewrite Hl.
  cbn [as_list fst snd is_error]. rewrite Hl.
  cbn [fst snd existsb is_error orb]. rewrite lrange_all.
  replace (0 <? length l)%nat with true
    by (symmetry; apply Nat.ltb_lt; destruct l; [done | cbn; lia]).
  cbn [is_error]. rewrite Hparse, serve_Emit, serve_nil, call_Done.
  by rewrite !record_all_cons, record_all_nil.
Qed.

(** C9.  A message that [JSON.parse] reads back from its serialization is
    published to a channel with a live subscriber that is connected here;
    a drain of that subscriber's queue then hands to [deliver], in one
    call, the messages that were waiting followed by the message itself,
    and leaves the queue empty. *)
Theorem publish_drain_roundtrip message channel clientId older w p N :
  parse JSON (stringify JSON (JObject message)) = Some (JObject message) →
  hasConnection srv clientId = true →
  clientId ∈ Spec.clients_of (redis w) ns channel →
  Spec.live (redis w) ns (clock w) (timeout srv) clientId = true →
  Spec.queues_ok (redis w) ns →
  Spec.safe_scores (redis w) ns →
  parse_all JSON (Spec.queue_of (redis w) ns clientId) = Some older →
  (1 + 4 * length (elements (Spec.subscribers (redis w) ns [channel])) ≤ N)%nat →
  let c1 := serve gen (publish srv ns JSON message [channel])
              (repeat quiet N) (w, p) in
  let c2 := serve gen (emptyQueue srv ns JSON clientId) [quiet] c1 in
  Spec.queue_of (redis c1.1) ns clientId
  = Spec.queue_of (redis w) ns clientId ++ [stringify JSON (JObject message)]
  ∧ log c2.2
    = log c1.2
      ++ [Sent (MultiExec [LRANGE (queue clientId) 0 (-1);
                           DEL (queue clientId)])
               (Some (Results
                        [Array (Spec.queue_of (redis w) ns clientId
                                ++ [stringify JSON (JObject message)]);
                         Int 1]));
          Deliver clientId (older ++ [JObject message])]
  ∧ Spec.queue_of (redis c2.1) ns clientId = []
  ∧ tasks c2.2 = tasks p
  ∧ c2.1 = {| redis := with_db (redis c1.1)
                         (delete (queue clientId) (db (redis c1.1)));
              clock := clock w |}.
Proof.
  intros Hround Hconn Hsub Hlive Hq _ Holder HN. cbn zeta.
  assert (Hsets : ∀ ch, ch ∈ [channel] →
            is_Some (as_set (db (redis w) !! rev ch))).
  { intros ch Hch. apply list_elem_of_singleton in Hch as ->.
    unfold Spec.clients_of in Hsub.
    destruct (db (redis w) !! rev channel) as [[]|];
      try (exfalso; revert Hsub; apply not_elem_of_empty).
    by exists members. }
  destruct (publish_quiet srv ns JSON message [channel] w p N
              ltac:(done) Hsets Hq HN)
    as (s1 & evs & -> & _ & _ & Hqueue & _).
  cbn zeta in Hqueue.
  assert (Hmem : clientId ∈ elements (Spec.subscribers (redis w) ns [channel])).
  { apply elem_of_elements, elem_of_subscribers.
    exists channel. split; [apply list_elem_of_here | done]. }
  specialize (Hqueue clientId Hmem).
  rewrite Hlive in Hqueue.
  cbn [fst snd redis] in *.
  assert (Hl : db s1 !! queue clientId
               = Some (LList (Spec.queue_of (redis w) ns clientId
                              ++ [stringify JSON (JObject message)]))).
  { unfold Spec.queue_of in Hqueue at 1.
    destruct (db s1 !! queue clientId) as [[]|] eqn:E;
      try (by rewrite Hqueue);
      symmetry in Hqueue; by apply app_nil in Hqueue as [_ ?]. }
  split; [done|].
  rewrite (emptyQueue_quiet clientId _ (older ++ [JObject message])
             {| redis := s1; clock := clock w |} (record_all evs p)
             Hconn Hl).
  - cbn [fst snd log tasks record_all redis]. split; [done|].
    split; [|done].
    unfold Spec.queue_of. cbn [db with_db]. by rewrite lookup_delete_eq.
  - intros E. by apply app_nil in E as [_ ?].
  - by apply mapM_snoc.
Qed.

End Drain.

Lemma publish_drain_roundtrip_witness :
  let w := Sample.at_time 1700000000000 Sample.two_channels in
  let c1 := Async.serve Sample.ids
              (Engine.publish Sample.usual "" Codec.JSON Sample.hello ["/b"])
              (repeat Async.quiet 5) (w, Async.idle) in
  let c2 := Async.serve Sample.ids
              (Engine.emptyQueue Sample.usual "" Codec.JSON "c")
              [Async.quiet] c1 in
  parse Codec.JSON (stringify Codec.JSON (JObject Sample.hello))
  = Some (JObject Sample.hello)
  ∧ "c" ∈ Spec.clients_of (Async.redis w) "" "/b"
  ∧ Spec.live (Async.redis w) "" (Async.clock w) (timeout Sample.usual) "c"
    = true
  ∧ Async.log c2.2
    = Async.log c1.2
      ++ [Async.Sent
            (Redis.MultiExec [Redis.LRANGE "/clients/c/messages" 0 (-1);
                              Redis.DEL "/clients/c/messages"])
            (Some (Redis.Results
                     [Redis.Array [Codec.print (JObject Sample.hello)];
                      Redis.Int 1]));
          Async.Deliver "c" [JObject Sample.hello]].
Proof.
  assert (H1 : parse Codec.JSON (stringify Codec.JSON (JObject Sample.hello))
               = Some (JObject Sample.hello)) by (vm_compute; reflexivity).
  assert (H2 : hasConnection Sample.usual "c" = true) by reflexivity.
  assert (H3 : "c" ∈ Spec.clients_of Sample.two_channels "" "/b")
    by (by vm_compute).
  assert (H4 : Spec.live Sample.two_channels "" 1700000000000
                 (timeout Sample.usual) "c" = true) by (vm_compute; reflexivity).
  assert (H5 : Engine.parse_all Codec.JSON
                 (Spec.queue_of Sample.two_channels "" "c") = Some [])
    by reflexivity.
  assert (H6 : (1 + 4 * length (elements (Spec.subscribers
                   Sample.two_channels "" ["/b"])) ≤ 5)%nat)
    by (vm_compute; lia).
  split; [exact H1|]. split; [exact H3|]. split; [exact H4|].
  exact (proj1 (proj2 (publish_drain_roundtrip Sample.usual "" Codec.JSON
                  Sample.hello "/b" "c" []
                  (Sample.at_time 1700000000000 Sample.two_channels)
                  Async.idle 5
                  H1 H2 H3 H4 two_channels_queues_ok two_channels_safe
                  H5 H6))).
Defined.

(** * The sweep *)

(** [ZRANGEBYSCORE key 0 max] answers the members whose score lies between
    0 and [max], both included, each once. *)
Lemma zrangebyscore_spec (m : gmap string Z) (max : JS.num) :
  (∀ c sc, m !! c = Some sc → JS.safe sc) →
  NoDup (Redis.zrangebyscore m (JS.of_Z 0) max)
  ∧ ∀ c, c ∈ Redis.zrangebyscore m (JS.of_Z 0) max
         ↔ ∃ sc, m !! c = Some sc ∧ 0 <= sc
                 ∧ JS.le (JS.of_Z sc) max = true.
Proof.
  intros Hsafe. assert (Hzero : JS.safe 0) by done.
  unfold Redis.zrangebyscore. split.
  - rewrite merge_sort_Permutation.
    apply NoDup_fmap_fst.
    + intros c x y Hx Hy.
      apply list_elem_of_filter in Hx as [_ Hx].
      apply list_elem_of_filter in Hy as [_ Hy].
      apply elem_of_map_to_list in Hx, Hy. congruence.
    + apply NoDup_filter, NoDup_map_to_list.
  - intros c. rewrite merge_sort_Permutation, list_elem_of_fmap. split.
    + intros ([c' sc] & -> & Hin).
      apply list_elem_of_filter in Hin as [Hr Hin].
      apply elem_of_map_to_list in Hin. exists sc. split; [done|].
      unfold Redis.in_range in Hr. cbn [snd] in Hr.
      apply andb_true_iff in Hr as [H0 H1].
      rewrite le_of_Z in H0 by eauto.
      split; [by apply bool_decide_eq_true_1 in H0 | done].
    + intros (sc & Hm & H0 & H1). exists (c, sc). split; [done|].
      apply list_elem_of_filter. split; [|by apply elem_of_map_to_list].
      unfold Redis.in_range. cbn [snd]. rewrite le_of_Z, H1 by eauto.
      by rewrite bool_decide_eq_true_2.
Qed.

Section Pool.
Import Redis Async Engine.

Variable gen : nat → string.

Lemma call_Incr cell k w p :
  call gen (Incr cell k) (w, p) =
  call gen (k (S (default 0%nat (heap p !! cell))))
    (w, {| heap := <[cell := S (default 0%nat (heap p !! cell))]> (heap p);
           ids := ids p; tasks := tasks p; log := log p |}).
Proof. reflexivity. Qed.

Lemma call_NewCell k w p :
  call gen (NewCell k) (w, p) =
  call gen (k (length (heap p)))
    (w, {| heap := heap p ++ [0%nat]; ids := ids p; tasks := tasks p;
           log := log p |}).
Proof. reflexivity. Qed.

(** The answer to the request of task [i]. *)
Lemma step_task i rq k h t w p :
  tasks p !! i = Some (Await rq k h) →
  step gen i t (w, p) =
  let w' := interfere t w in
  let rest := {| heap := heap p; ids := ids p; tasks := delete i (tasks p);
                 log := log p |} in
  if fault t
  then call gen h (w', record (Sent rq None) rest)
  else
    let sr := exec rq (redis w') in
    call gen (if is_error sr.2 then h else k sr.2)
         ({| redis := sr.1; clock := clock w' |},
          record (Sent rq (Some sr.2)) rest).
Proof.
  intros H. unfold step. cbn [fst snd]. rewrite H.
  destruct (fault t); cbn zeta.
  - rewrite world_eta. unfold call, record. cbn [fst snd].
    by destruct (sync _ _ _ _).
  - destruct (exec rq (redis (interfere t w))) as [s r]. cbn [fst snd].
    unfold call, record. cbn [fst snd clock].
    by destruct (sync _ _ _ _).
Qed.

Lemma step_none i t w p :
  tasks p !! i = None → step gen i t (w, p) = (interfere t w, p).
Proof. intros H. unfold step. cbn [fst snd]. by rewrite H. Qed.

(** The loop of [destroyClient] only tells the server about channels. *)
Lemma unsubscribed_events clientId channels :
  ∀ i results,
    ∃ evs,
      (∀ k w p,
         call gen (unsubscribed clientId channels i results k) (w, p)
         = call gen k (w, record_all evs p))
      ∧ Spec.calls "release" evs = [].
Proof.
  induction channels as [|channel rest IH]; intros i results.
  - exists []. split; [|done]. intros. by rewrite record_all_nil.
  - destruct (IH (S i) results) as (evs & Hevs & Hc).
    cbn [unsubscribed].
    destruct (results !! (2 * i + 1)%nat) as [r|]; [destruct (is_int r 1)|].
    + eexists (_ :: _ :: evs). split.
      * intros. by rewrite !call_Emit, Hevs, !record_all_cons.
      * exact Hc.
    + by exists evs.
    + by exists evs.
Qed.

Variable ns : string.

(** A completion: one more in the count, and the release with the last. *)
Lemma completion_call cell n w p done evs :
  heap p !! cell = Some done →
  Spec.calls "release" evs = [] →
  ∃ p',
    call gen (Spec.completion cell n Spec.release) (w, record_all evs p)
    = (w, p')
    ∧ heap p' !! cell = Some (S done)
    ∧ tasks p' = tasks p
    ∧ Spec.calls "release" (log p')
      = Spec.calls "release" (log p)
        ++ (if (S done =? n)%nat then [[]] else []).
Proof.
  intros Hcell Hevs. unfold Spec.completion. rewrite call_Incr.
  cbn [heap record_all]. rewrite Hcell.
  change (default 0%nat (Some done)) with done.
  assert (Hlt : (cell < length (heap p))%nat) by (by eapply lookup_lt_Some).
  destruct (S done =? n)%nat.
  - unfold Spec.release. rewrite call_Emit, call_Done.
    eexists. split; [reflexivity|].
    cbn [heap tasks log record record_all ids].
    rewrite list_lookup_insert_eq by done.
    by rewrite !calls_app, Hevs, app_nil_r.
  - rewrite call_Done. eexists. split; [reflexivity|].
    cbn [heap tasks log record record_all ids].
    rewrite list_lookup_insert_eq by done.
    by rewrite !calls_app, Hevs, !app_nil_r.
Qed.

Lemma pending_cons x l :
  Spec.pending (x :: l) = (Spec.steps_left x + Spec.pending l)%nat.
Proof. reflexivity. Qed.

Lemma pending_app l1 l2 :
  Spec.pending (l1 ++ l2) = (Spec.pending l1 + Spec.pending l2)%nat.
Proof.
  induction l1 as [|x l1 IH]; [done|].
  rewrite <- app_comm_cons, !pending_cons, IH. lia.
Qed.

Lemma pending_delete i x l :
  l !! i = Some x →
  (Spec.pending (delete i l) + Spec.steps_left x = Spec.pending l)%nat.
Proof.
  revert i. induction l as [|y l IH]; intros [|i] H; try done.
  - injection H as ->. change (delete 0%nat (x :: l)) with l.
    rewrite pending_cons. lia.
  - change (delete (S i) (y :: l)) with (y :: delete i l).
    rewrite !pending_cons. specialize (IH i H). lia.
Qed.

Lemma call_destroy_commit c callback members w p :
  call gen (destroy_commit ns c callback members) (w, p)
  = (w, {| heap := heap p; ids := ids p;
           tasks := tasks p ++ [destroy_commit ns c callback members];
           log := log p |}).
Proof. reflexivity. Qed.

(** One round trip of a sweep: the invariant stays, and the task that was
    served has fewer round trips ahead. *)
Lemma sweeping_step cell n (P : string → Prop) i t w p :
  Spec.sweeping ns cell n P p →
  Spec.sweeping ns cell n P (step gen i t (w, p)).2
  ∧ (is_Some (tasks p !! i) →
     (Spec.pending (tasks (step gen i t (w, p)).2) < Spec.pending (tasks p))%nat).
Proof.
  intros (done & Hcell & Hall & Hsum & Hlog).
  destruct (tasks p !! i) as [task|] eqn:Htask.
  2: { rewrite step_none by done. split; [by exists done | by intros [? ?]]. }
  assert (Hlen : (i < length (tasks p))%nat) by (by eapply lookup_lt_Some).
  assert (Hnot : (done =? n)%nat = false) by (apply Nat.eqb_neq; lia).
  rewrite Hnot in Hlog.
  pose proof (pending_delete i task (tasks p) Htask) as Hpend.
  assert (Hfinish : ∀ w' evs,
    Spec.calls "release" evs = [] →
    (0 < Spec.steps_left task)%nat →
    let p' := (call gen (Spec.completion cell n Spec.release)
         (w', record_all evs
                {| heap := heap p; ids := ids p; tasks := delete i (tasks p);
                   log := log p |})).2 in
    Spec.sweeping ns cell n P p'
    ∧ (is_Some (Some task) →
       (Spec.pending (tasks p') < Spec.pending (tasks p))%nat)).
  { intros w' evs Hevs Hpos.
    destruct (completion_call cell n w'
                {| heap := heap p; ids := ids p; tasks := delete i (tasks p);
                   log := log p |} done evs Hcell Hevs)
      as (p' & -> & Hcell' & Htasks' & Hlog').
    cbn zeta. cbn [snd tasks log] in *. split.
    - exists (S done). rewrite Htasks'.
      split; [done|]. split; [by apply Forall_delete|].
      split; [rewrite length_delete by (by eexists); lia|].
      by rewrite Hlog', Hlog.
    - intros _. rewrite Htasks'. lia. }
  apply (Forall_lookup_1 _ _ _ _ Hall) in Htask as Hd.
  destruct Hd as [c Hc|c members Hc].
  - unfold destroyClient in Htask, Hpend, Hfinish.
    rewrite (step_task _ _ _ _ _ _ _ Htask).
    cbn zeta. destruct (fault t).
    { rewrite call_Emit. unfold invoke.
      rewrite !record_one, !record_all_join. apply Hfinish; [done | cbn; lia]. }
    destruct (is_error _).
    { rewrite call_Emit. unfold invoke.
      rewrite !record_one, !record_all_join. apply Hfinish; [done | cbn; lia]. }
    rewrite call_destroy_commit.
    split.
    + exists done. cbn [snd heap tasks log record ids].
      split; [done|]. split.
      { apply Forall_app. split; [by apply Forall_delete|].
        apply Forall_singleton. by apply (Spec.destroying_commit _ _ _ c). }
      split.
      { rewrite length_app, length_delete by (by eexists). cbn [length]. lia. }
      rewrite calls_app, Hlog. by rewrite Hnot.
    + intros _. cbn [snd heap tasks log record ids].
      rewrite pending_app. cbn in Hpend |- *. lia.
  - unfold destroy_commit in Htask, Hpend, Hfinish.
    rewrite (step_task _ _ _ _ _ _ _ Htask).
    cbn zeta. destruct (fault t).
    { rewrite call_Emit. unfold invoke.
      rewrite !record_one, !record_all_join. apply Hfinish; [done | cbn; lia]. }
    destruct (is_error _).
    { rewrite call_Emit. unfold invoke.
      rewrite !record_one, !record_all_join. apply Hfinish; [done | cbn; lia]. }
    destruct (unsubscribed_events c (strings members) 0
                match (exec (MultiExec (destroy_batch ns c (strings members)))
                         (redis (interfere t w))).2
                with Results rs => rs | _ => [] end)
      as (evs & -> & Hevs).
    rewrite !call_Emit. unfold invoke.
    rewrite !record_one, !record_all_join. apply Hfinish; [|cbn; lia].
    by rewrite !calls_app, Hevs.
Qed.

Lemma sweeping_run cell n (P : string → Prop) schedule :
  ∀ c, Spec.sweeping ns cell n P c.2 →
       Spec.sweeping ns cell n P (run gen schedule c).2.
Proof.
  induction schedule as [|[i t] rest IH]; intros [w p] H; [done|].
  cbn [run]. apply IH. by apply sweeping_step.
Qed.

(** Serving the first suspended task again and again ends the sweep. *)
Lemma sweeping_ends cell n (P : string → Prop) ticks :
  ∀ c, Spec.sweeping ns cell n P c.2 →
       (Spec.pending (tasks c.2) ≤ length ticks)%nat →
       tasks (run gen (map (λ t, (0%nat, t)) ticks) c).2 = [].
Proof.
  induction ticks as [|t ticks IH]; intros [w p] H Hle; cbn [snd] in *.
  - destruct H as (done & _ & Hall & _). cbn [map run snd].
    destruct (tasks p) as [|task rest]; [done|].
    apply Forall_cons in Hall as [Hd _]. rewrite pending_cons in Hle.
    inversion Hd; subst; cbn [Spec.steps_left destroyClient destroy_commit
      length] in Hle; lia.
  - cbn [map run].
    destruct (sweeping_step cell n P 0 t w p H) as [H' Hlt].
    destruct (step gen 0 t (w, p)) as [w' p'] eqn:E. cbn [snd] in *.
    apply (IH (w', p')); [done|]. cbn [snd length] in *.
    destruct (tasks p !! 0%nat) as [task|] eqn:Htask.
    + specialize (Hlt ltac:(by eexists)). lia.
    + rewrite step_none in E by done. injection E as <- <-.
      destruct (tasks p); [cbn; lia | done].
Qed.

End Pool.

(** * Keys of different clients *)

Lemma append_same_length (s1 s2 t1 t2 : string) :
  s1 +:+ t1 = s2 +:+ t2 → String.length t1 = String.length t2 →
  s1 = s2 ∧ t1 = t2.
Proof.
  revert s2. induction s1 as [|a s1 IH]; intros [|b s2] H Hlen.
  - done.
  - apply (f_equal String.length) in H. rewrite !length_append in H.
    cbn [String.length] in H. lia.
  - apply (f_equal String.length) in H. rewrite !length_append in H.
    cbn [String.length] in H. lia.
  - cbn [append] in H. injection H as -> H.
    destruct (IH s2 H Hlen) as [-> ->]. done.
Qed.

Lemma forward_inj (ns c c' : string) :
  ns +:+ "/clients/" +:+ c +:+ "/channels"
  = ns +:+ "/clients/" +:+ c' +:+ "/channels" → c = c'.
Proof.
  intros H. apply (inj (String.append ns)) in H.
  apply (inj (String.append "/clients/")) in H.
  by apply append_inj_r in H.
Qed.

Lemma forward_queue_ne (ns c c' : string) :
  ns +:+ "/clients/" +:+ c +:+ "/channels"
  ≠ ns +:+ "/clients/" +:+ c' +:+ "/messages".
Proof.
  intros H. apply (inj (String.append ns)) in H.
  apply (inj (String.append "/clients/")) in H.
  apply append_same_length in H as [_ H]; [discriminate H | done].
Qed.

Lemma queue_reverse_ne (ns c channel : string) :
  ns +:+ "/clients/" +:+ c +:+ "/messages" ≠ ns +:+ "/channels" +:+ channel.
Proof. intros H. apply (inj (String.append ns)) in H. discriminate H. Qed.

Lemma reverse_inj (ns channel channel' : string) :
  ns +:+ "/channels" +:+ channel = ns +:+ "/channels" +:+ channel' →
  channel = channel'.
Proof.
  intros H. apply (inj (String.append ns)) in H.
  by apply (inj (String.append "/channels")) in H.
Qed.

(** * What a command leaves alone *)

Lemma exec_frame (c : Redis.command) (s : Redis.store) (k : string) :
  Spec.written c ≠ Some k →
  Redis.db (Redis.exec_command c s).1 !! k = Redis.db s !! k.
Proof.
  intros H.
  destruct c; cbn [Redis.exec_command Spec.written] in *;
    repeat match goal with
    | |- context [match ?x with _ => _ end] => destruct x eqn:?
    end; cbn [fst Redis.db Redis.with_db]; try done;
    rewrite ?lookup_put_set_ne, ?lookup_put_zset_ne, ?lookup_insert_ne,
      ?lookup_delete_ne by congruence; done.
Qed.

Section Frame.
Import Redis Async Engine.

Variable ns : string.

(** The client whose data stays. *)
Variable x : string.

Local Abbreviation key := (ns +:+ "/clients").
Local Abbreviation fwd c := (ns +:+ "/clients/" +:+ c +:+ "/channels").
Local Abbreviation rev ch := (ns +:+ "/channels" +:+ ch).
Local Abbreviation queue c := (ns +:+ "/clients/" +:+ c +:+ "/messages").

Lemma same_client_refl s : Spec.same_client ns x s s.
Proof. by split. Qed.

Lemma same_client_trans s1 s2 s3 :
  Spec.same_client ns x s1 s2 → Spec.same_client ns x s2 s3 →
  Spec.same_client ns x s1 s3.
Proof.
  intros [A1 A2 A3 A4] [B1 B2 B3 B4]. split.
  - by rewrite B1.
  - by rewrite B2.
  - by rewrite B3.
  - intros ch. by rewrite B4.
Qed.

Lemma same_client_lookup s s' :
  Spec.score s' ns x = Spec.score s ns x →
  db s' !! fwd x = db s !! fwd x →
  db s' !! queue x = db s !! queue x →
  (∀ ch, x ∈ Spec.clients_of s' ns ch ↔ x ∈ Spec.clients_of s ns ch) →
  Spec.same_client ns x s s'.
Proof.
  intros H1 H2 H3 H4. split; [done| | |done].
  - unfold Spec.channels_of. by rewrite H2.
  - unfold Spec.queue_of. by rewrite H3.
Qed.

(** A write to a key that is none of the client's. *)
Lemma frame_other_key c s K :
  Spec.written c = Some K →
  K ≠ key → K ≠ fwd x → K ≠ queue x → (∀ ch, K ≠ rev ch) →
  Spec.same_client ns x s (exec_command c s).1.
Proof.
  intros HK H1 H2 H3 H4. apply same_client_lookup.
  - unfold Spec.score. by rewrite exec_frame by congruence.
  - apply exec_frame. congruence.
  - apply exec_frame. congruence.
  - intros ch. unfold Spec.clients_of.
    rewrite exec_frame; [done|]. rewrite HK. intros [= E]. by apply (H4 ch).
Qed.

Lemma frame_no_write c s :
  Spec.written c = None → Spec.same_client ns x s (exec_command c s).1.
Proof.
  intros HK. apply same_client_lookup.
  - unfold Spec.score. by rewrite exec_frame by congruence.
  - apply exec_frame. congruence.
  - apply exec_frame. congruence.
  - intros ch. unfold Spec.clients_of. by rewrite exec_frame by congruence.
Qed.

(** A write to the session set about another member. *)
Lemma frame_session c s member :
  member ≠ x →
  (∃ NX sc, c = ZADD key NX sc member) ∨ c = ZREM key member →
  Spec.same_client ns x s (exec_command c s).1.
Proof.
  intros Hne Hc.
  assert (Hw : Spec.written c = Some key)
    by (destruct Hc as [(? & ? & ->)| ->]; done).
  apply same_client_lookup.
  - unfold Spec.score.
    destruct Hc as [(NX & sc & ->)| ->]; cbn [exec_command].
    + destruct (db s !! key) as [[m| | |]|] eqn:E; cbn [as_zset fst];
        rewrite ?E; try done.
      * destruct (m !! member), NX; cbn [fst db with_db]; rewrite ?E;
          try done; rewrite lookup_insert_eq; by rewrite lookup_insert_ne.
      * rewrite lookup_empty. cbn [fst db with_db].
        rewrite lookup_insert_eq. rewrite lookup_insert_ne by done.
        by rewrite lookup_empty.
    + destruct (db s !! key) as [[m| | |]|] eqn:E; cbn [as_zset fst];
        rewrite ?E; try done.
      * destruct (m !! member) eqn:Em; cbn [fst db with_db]; rewrite ?E;
          [|done].
        unfold put_zset. case_decide as Hm.
        -- rewrite lookup_delete_eq.
           apply (f_equal (λ m, m !! x)) in Hm.
           rewrite lookup_delete_ne, lookup_empty in Hm by done. by rewrite Hm.
        -- rewrite lookup_insert_eq. by rewrite lookup_delete_ne.
      * rewrite lookup_empty. cbn [fst]. by rewrite E.
  - apply exec_frame. rewrite Hw. intros [= E].
    by apply clients_forward_ne in E.
  - apply exec_frame. rewrite Hw. intros [= E].
    by apply clients_queue_ne in E.
  - intros ch. unfold Spec.clients_of. rewrite exec_frame; [done|].
    rewrite Hw. intros [= E]. by apply clients_reverse_ne in E.
Qed.

(** The removal of another client from a reverse index. *)
Lemma frame_listing s channel member :
  member ≠ x →
  Spec.same_client ns x s (exec_command (SREM (rev channel) member) s).1.
Proof.
  intros Hne. apply same_client_lookup.
  - unfold Spec.score. rewrite exec_frame; [done|]. cbn. intros [= E].
    symmetry in E. by apply clients_reverse_ne in E.
  - apply exec_frame. cbn. intros [= E]. by apply reverse_forward_ne in E.
  - apply exec_frame. cbn. intros [= E]. symmetry in E.
    by apply queue_reverse_ne in E.
  - intros ch. unfold Spec.clients_of.
    destruct (decide (ch = channel)) as [->|Hch].
    2: { rewrite exec_frame; [done|]. cbn. intros [= E].
         by apply reverse_inj in E. }
    cbn [exec_command].
    destruct (db s !! rev channel) as [[|m| |]|] eqn:E; cbn [as_set fst];
      rewrite ?E; try done.
    + destruct (decide (member ∈ m)); cbn [fst db with_db]; rewrite ?E;
        [|done].
      unfold put_set. case_decide as Hm.
      * rewrite lookup_delete_eq. set_solver.
      * rewrite lookup_insert_eq. set_solver.
    + destruct (decide (member ∈ ∅)); cbn [fst]; by rewrite ?E.
Qed.

(** Every command of the batch of another client. *)
Lemma frame_batch_command c s other channels :
  other ≠ x →
  c ∈ destroy_batch ns other channels →
  Spec.same_client ns x s (exec_command c s).1.
Proof.
  intros Hne Hin. unfold destroy_batch in Hin.
  apply elem_of_app in Hin as [Hin|Hin].
  { apply list_elem_of_singleton in Hin as ->.
    apply (frame_session _ _ other); eauto. }
  apply elem_of_app in Hin as [Hin|Hin].
  { apply list_elem_of_In, in_flat_map in Hin as (ch & _ & Hin).
    apply list_elem_of_In in Hin.
    apply elem_of_cons in Hin as [->|Hin].
    - apply (frame_other_key _ _ (fwd other)); [done| | | |].
      + intros E. symmetry in E. by apply clients_forward_ne in E.
      + intros E. by apply forward_inj in E.
      + apply forward_queue_ne.
      + intros ch'. apply forward_reverse_ne.
    - apply list_elem_of_singleton in Hin as ->. by apply frame_listing. }
  apply elem_of_cons in Hin as [->|Hin].
  { apply (frame_other_key _ _ (queue other)); [done| | | |].
    - intros E. symmetry in E. by apply clients_queue_ne in E.
    - intros E. symmetry in E. by apply forward_queue_ne in E.
    - intros E. by apply queue_inj in E.
    - intros ch'. apply queue_reverse_ne. }
  apply elem_of_cons in Hin as [->|Hin].
  { apply (frame_session _ _ other); eauto. }
  apply list_elem_of_singleton in Hin as ->. by apply frame_no_write.
Qed.

Lemma frame_exec_multi cs :
  ∀ s,
    (∀ c s', c ∈ cs → Spec.same_client ns x s' (exec_command c s').1) →
    Spec.same_client ns x s (exec_multi cs s).1.
Proof.
  induction cs as [|c cs IH]; intros s H; [apply same_client_refl|].
  rewrite exec_multi_cons. cbn [fst].
  eapply same_client_trans.
  - apply H, list_elem_of_here.
  - apply IH. intros c' s' Hin. apply H. by apply list_elem_of_further.
Qed.

End Frame.

Section Sweep.
Import Redis Async Engine.

Variable gen : nat → string.
Variable ns : string.

Local Abbreviation key := (ns +:+ "/clients").

Lemma call_world t c : (call gen t c).1 = c.1.
Proof. unfold call. by destruct (sync gen t (clock c.1) c.2). Qed.

(** One round trip of a sweep that is alone leaves the clients it does
    not destroy as they are. *)
Lemma frame_step cell n (P : string → Prop) i t w p x :
  Spec.sweeping ns cell n P p →
  (∀ c, P c → c ≠ x) →
  interfere t w = w →
  Spec.same_client ns x (redis w) (redis (step gen i t (w, p)).1).
Proof.
  intros (done & _ & Hall & _) HP Halone.
  destruct (tasks p !! i) as [task|] eqn:Htask.
  2: { rewrite step_none by done. cbn [fst]. rewrite Halone.
       apply same_client_refl. }
  apply (Forall_lookup_1 _ _ _ _ Hall) in Htask as Hd.
  destruct Hd as [c Hc|c members Hc].
  - unfold destroyClient in Htask. rewrite (step_task _ _ _ _ _ _ _ _ Htask).
    cbn zeta. rewrite Halone.
    destruct (fault t); rewrite call_world; cbn [fst redis];
      [apply same_client_refl|].
    cbn [exec]. by apply frame_no_write.
  - unfold destroy_commit in Htask.
    rewrite (step_task _ _ _ _ _ _ _ _ Htask).
    cbn zeta. rewrite Halone.
    destruct (fault t); rewrite call_world; cbn [fst redis];
      [apply same_client_refl|].
    cbn [exec]. destruct (exec_multi _ _) as [s' rs] eqn:E. cbn [fst].
    replace s' with (exec_multi (destroy_batch ns c (strings members))
                       (redis w)).1 by (by rewrite E).
    apply frame_exec_multi. intros cmd s0 Hin.
    apply (frame_batch_command _ _ _ _ c (strings members)); [|done].
    by apply HP.
Qed.

Lemma frame_run cell n (P : string → Prop) x schedule :
  (∀ c, P c → c ≠ x) →
  Spec.alone schedule →
  ∀ c, Spec.sweeping ns cell n P c.2 →
       Spec.same_client ns x (redis c.1) (redis (run gen schedule c).1).
Proof.
  intros HP. induction schedule as [|[i t] rest IH]; intros Halone [w p] H.
  - apply same_client_refl.
  - apply Forall_cons in Halone as [Ht Halone]. cbn [run fst snd] in *.
    eapply same_client_trans.
    + by apply (frame_step cell n P i t w p x).
    + apply IH; [done|].
      by apply (sweeping_step gen ns cell n P i t w p).
Qed.

(** [destroy_each] starts one [destroyClient] per client. *)
Lemma call_destroy_each clients callback :
  ∀ w p,
    call gen (destroy_each ns clients callback) (w, p)
    = (w, {| heap := heap p; ids := ids p;
             tasks := tasks p
                      ++ map (λ c, destroyClient ns c (Some callback)) clients;
             log := log p |}).
Proof.
  induction clients as [|c rest IH]; intros w p.
  - cbn [destroy_each map]. rewrite call_Done, app_nil_r. by destruct p.
  - cbn [destroy_each map]. rewrite call_Spawn.
    cbn [destroyClient sync fst snd suspend]. rewrite IH.
    cbn [heap ids tasks log]. by rewrite <- app_assoc.
Qed.

(** The query of [sweep], and what it starts. *)
Lemma sweep_serve timeout release handler t w p m :
  fault t = false →
  let w1 := interfere t w in
  let cutoff := Spec.cutoff 2%float (clock w) timeout in
  as_zset (db (redis w1) !! key) = Some m →
  is_NaN cutoff = false →
  let clients := zrangebyscore m (JS.of_Z 0) cutoff in
  serve gen (sweep ns timeout release handler) [t] (w, p)
  = call gen
      (if (length clients =? 0)%nat then release
       else NewCell (λ completed,
              destroy_each ns clients
                (Spec.completion completed (length clients) release)))
      (w1, record (Sent (Single (ZRANGEBYSCORE key (JS.of_Z 0) cutoff))
                        (Some (Array clients))) p).
Proof.
  intros Ft w1 cutoff Hm Hnan clients. unfold sweep.
  rewrite serve_Now, serve_Await, Ft. cbn zeta. cbn [fst].
  cbn [exec exec_command].
  change (JS.sub _ _) with cutoff. fold w1.
  change (is_NaN (JS.of_Z 0)) with false. cbn [orb].
  rewrite Hnan, Hm. cbn [orb fst snd is_error strings].
  fold clients. by rewrite serve_nil, world_eta.
Qed.

Lemma pending_destroys callback clients :
  Spec.pending (map (λ x, destroyClient ns x (Some callback)) clients)
  = (2 * length clients)%nat.
Proof.
  induction clients as [|x rest IH]; [done|].
  cbn [map length]. rewrite pending_cons, IH. cbn [Spec.steps_left destroyClient].
  lia.
Qed.

Lemma run_alone_over schedule w p :
  tasks p = [] → Spec.alone schedule → run gen schedule (w, p) = (w, p).
Proof.
  intros Hp. induction schedule as [|[i t] rest IH]; intros Halone; [done|].
  apply Forall_cons in Halone as [Ht Halone]. cbn [run snd] in *.
  rewrite step_none by (by rewrite Hp). rewrite Ht. by apply IH.
Qed.

(** C2, amended.  [gc] with a number for heartbeat runs the sweep under
    the lock "gc".  A sweep whose query is rejected ends in the handler
    of its caller.  The scores being safe integers, the sweep asks for the
    sessions whose score lies between 0 and [now - 1000 * 2 * timeout],
    the cutoff as JavaScript computes it in binary64, both ends included,
    and gets exactly those, each once.  With none it calls the release at
    once.  Otherwise it starts one [destroyClient] per selected client,
    and however their round trips are interleaved, with or without
    failures, the count of completions plus the number of destroys still
    running is the number of selected clients, and the release has been
    called exactly when the count has reached that number; serving the
    destroys for two round trips each ends them all.  While nobody else
    writes to the store, everything the store holds about a client that
    was not selected stays as it was. *)
Theorem sweep_protocol timeout handler t w p m schedule :
  fault t = false →
  tasks p = [] →
  Spec.calls "release" (log p) = [] →
  let w1 := interfere t w in
  let cutoff := Spec.cutoff 2%float (clock w) timeout in
  let query := Single (ZRANGEBYSCORE key (JS.of_Z 0) cutoff) in
  as_zset (db (redis w1) !! key) = Some m →
  (∀ x sc, m !! x = Some sc → JS.safe sc) →
  is_NaN cutoff = false →
  let clients := zrangebyscore m (JS.of_Z 0) cutoff in
  let n := length clients in
  let cell := length (heap p) in
  let c1 := serve gen (sweep ns timeout Spec.release handler) [t] (w, p) in
  let c := run gen schedule c1 in
  (∀ ids connected,
     gc {| timeout := JS.Num timeout; generateId := ids;
           hasConnection := connected |} ns
     = _withLock ns "gc" (sweep ns timeout))
  ∧ (∀ t' p', fault t' = true →
       serve gen (sweep ns timeout Spec.release handler) [t'] (w, p')
       = call gen handler
           (interfere t' w, record_all [Sent query None] p'))
  ∧ (NoDup clients
   ∧ ∀ x, x ∈ clients
          ↔ ∃ sc, m !! x = Some sc ∧ 0 <= sc
                  ∧ JS.le (JS.of_Z sc) cutoff = true)
  ∧ (clients = [] →
     c1 = (w1, record_all [Sent query (Some (Array []));
                           Called "release" []] p))
  ∧ (clients ≠ [] →
     c1 = (w1, {| heap := heap p ++ [0%nat];
                  ids := ids p;
                  tasks :=
                    map (λ x, destroyClient ns x
                                (Some (Spec.completion cell n Spec.release)))
                        clients;
                  log := log p ++ [Sent query (Some (Array clients))] |})
     ∧ (∃ done,
          heap c.2 !! cell = Some done
          ∧ (done + length (tasks c.2) = n)%nat
          ∧ Spec.calls "release" (log c.2)
            = (if (done =? n)%nat then [[]] else []))
     ∧ (∀ ticks, (2 * n ≤ length ticks)%nat →
          let c' := run gen (map (λ t, (0%nat, t)) ticks) c1 in
          tasks c'.2 = [] ∧ Spec.calls "release" (log c'.2) = [[]]))
  ∧ (Spec.alone schedule →
     ∀ x, x ∉ clients → Spec.same_client ns x (redis w1) (redis c.1)).
Proof.
  intros Ft Hidle Hquiet w1 cutoff query Hm Hsafe Hnan clients n cell.
  cbn zeta. split; [done|].
  split.
  { intros t' p' Ft'. unfold sweep.
    rewrite serve_Now, serve_Await, Ft'. cbn zeta. cbn [fst].
    by rewrite serve_nil, record_one. }
  rewrite (sweep_serve timeout Spec.release handler t w p m Ft Hm Hnan).
  fold w1 cutoff clients n query.
  split; [by apply zrangebyscore_spec|].
  clearbody clients.
  destruct (decide (clients = [])) as [Hclients|Hclients].
  { unfold n. rewrite Hclients. cbn [length Nat.eqb]. unfold Spec.release.
    rewrite call_Emit, call_Done.
    split; [intros _; by rewrite !record_one, record_all_join|].
    split; [done|].
    intros Halone x _. rewrite run_alone_over; [apply same_client_refl | |done].
    by cbn [record tasks]. }
  assert (Hn : n ≠ 0%nat).
  { unfold n. destruct clients; [done | cbn; lia]. }
  replace (n =? 0)%nat with false
    by (symmetry; by apply Nat.eqb_neq).
  rewrite call_NewCell, call_destroy_each.
  cbn [heap ids tasks log record]. rewrite Hidle. cbn [app]. fold cell.
  set (c1 := (w1, {| heap := heap p ++ [0%nat]; ids := ids p;
                     tasks := _; log := _ |})).
  assert (Hinv : Spec.sweeping ns cell n (λ x, x ∈ clients) c1.2).
  { exists 0%nat. cbn [snd heap tasks log c1].
    split; [unfold cell; by rewrite lookup_app_r, Nat.sub_diag|]. split.
    - apply Forall_forall. intros task Hin.
      apply list_elem_of_In, in_map_iff in Hin as (x & <- & Hx).
      apply Spec.destroying_read. by apply list_elem_of_In.
    - split; [by rewrite length_map|].
      replace (0 =? n)%nat with false
        by (symmetry; apply Nat.eqb_neq; lia).
      rewrite calls_app, Hquiet. done. }
  split; [done|].
  split.
  - intros _. split; [done|]. split.
    + destruct (sweeping_run gen ns cell n _ schedule c1 Hinv)
        as (done & H1 & _ & H2 & H3).
      by exists done.
    + intros ticks Hticks. cbn zeta.
      assert (Hend : tasks (run gen (map (λ t, (0%nat, t)) ticks) c1).2 = []).
      { apply (sweeping_ends gen ns cell n (λ x, x ∈ clients)); [done|].
        cbn [snd tasks c1]. rewrite pending_destroys. by fold n. }
      split; [done|].
      destruct (sweeping_run gen ns cell n _ (map (λ t, (0%nat, t)) ticks)
                  c1 Hinv) as (done & _ & _ & H2 & H3).
      rewrite Hend in H2. cbn [length] in H2.
      replace (done =? n)%nat with true in H3
        by (symmetry; apply Nat.eqb_eq; lia).
      done.
  - intros Halone x Hx.
    assert (HP : ∀ c, c ∈ clients → c ≠ x) by (by intros c Hc ->).
    exact (frame_run cell n (λ x, x ∈ clients) x schedule HP Halone c1 Hinv).
Qed.

End Sweep.

(** Of the sessions "old" (two minutes behind the clock) and "new" (ten
    seconds behind), a sweep at a heartbeat of 45 seconds destroys "old",
    calls the release once, and leaves "new" as it was. *)
Lemma sweep_protocol_witness :
  let w := Sample.at_time 1700000000000
             (Sample.sessions [("old", 1699999880000);
                               ("new", 1699999990000)]) in
  let c := Async.run Sample.ids (map (λ t, (0%nat, t)) (repeat Async.quiet 2))
             (Async.serve Sample.ids
                (Engine.sweep "" (JS.of_Z 45) Spec.release Async.Done)
                [Async.quiet] (w, Async.idle)) in
  Redis.is_NaN (Spec.cutoff 2%float 1700000000000 (JS.of_Z 45)) = false
  ∧ Async.tasks c.2 = []
  ∧ Spec.calls "release" (Async.log c.2) = [[]]
  ∧ Spec.same_client "" "new" (Async.redis w) (Async.redis c.1)
  ∧ Spec.score (Async.redis c.1) "" "old" = None.
Proof.
  set (w := Sample.at_time 1700000000000
             (Sample.sessions [("old", 1699999880000);
                               ("new", 1699999990000)])).
  assert (Hnan : Redis.is_NaN (Spec.cutoff 2%float (Async.clock w) (JS.of_Z 45))
                 = false) by reflexivity.
  assert (Hm : Redis.as_zset
                 (Redis.db (Async.redis (Async.interfere Async.quiet w))
                    !! ("" +:+ "/clients"))
               = Some (list_to_map [("old", 1699999880000);
                                    ("new", 1699999990000)]))
    by reflexivity.
  assert (Hsafe : ∀ x sc,
            (list_to_map [("old", 1699999880000); ("new", 1699999990000)]
               : gmap string Z) !! x = Some sc → JS.safe sc).
  { intros x sc H. cbn [list_to_map foldr uncurry] in H.
    apply lookup_insert_Some in H as [[_ <-]|[_ H]]; [reflexivity|].
    apply lookup_insert_Some in H as [[_ <-]|[_ H]]; [reflexivity|].
    by rewrite lookup_empty in H. }
  pose proof (sweep_protocol Sample.ids "" (JS.of_Z 45) Async.Done
                Async.quiet w Async.idle _
                (map (λ t, (0%nat, t)) (repeat Async.quiet 2))
                eq_refl eq_refl eq_refl Hm Hsafe Hnan)
    as (_ & _ & _ & _ & H3 & H4).
  cbn zeta. split; [exact Hnan|].
  destruct H3 as (_ & _ & H3); [by vm_compute|].
  destruct (H3 (repeat Async.quiet 2)) as [Ht Hr]; [vm_compute; lia|].
  split; [exact Ht|]. split; [exact Hr|].
  split.
  - apply H4.
    + repeat constructor.
    + intros H. vm_compute in H.
      inversion H as [|? ? ? H1]; inversion H1.
  - by vm_compute.
Defined.

(** C2 as stated fails at the boundary.  At a heartbeat of 45 seconds the
    cutoff is 90 seconds behind the clock; the score of "edge" is the
    cutoff itself, so it is not older than the cutoff, and [gc] still
    selects and destroys the session: the range of the query includes its
    upper end. *)
Lemma sweep_counterexample :
  let w := Sample.at_time 1700000000000
             (Sample.sessions [("edge", 1699999910000)]) in
  let cutoff := Spec.cutoff 2%float (Async.clock w) (JS.of_Z 45) in
  let c := Async.serve Sample.ids (Engine.gc Sample.usual "")
             (repeat Async.quiet 4) (w, Async.idle) in
  Spec.score (Async.redis w) "" "edge" = Some 1699999910000
  ∧ JS.lt (JS.of_Z 1699999910000) cutoff = false
  ∧ Async.log c.2 !! 1%nat
    = Some (Async.Sent
              (Redis.Single
                 (Redis.ZRANGEBYSCORE "/clients" (JS.of_Z 0) cutoff))
              (Some (Redis.Array ["edge"])))
  ∧ Async.triggered "disconnect" (Async.log c.2) = [[Engine.str "edge"]]
  ∧ Spec.score (Async.redis c.1) "" "edge" = None.
Proof. vm_compute. auto 10. Qed.
